(** * Quiz session server: scoring, session state machine, socket handlers

    A shallow embedding of the socket.io quiz server (the current server
    source with streak scoring, and the earlier [server.js] in module
    [ServerJs]) together with the properties of its scoring engine, of the
    question cursor, of the auto-advance timer and of the six socket
    handlers.

    Modelling conventions.
    - Times and durations are integer milliseconds ([Z]); [Date.now()] is
      the [now] argument a handler is run with.  [Math.floor (a / b * c)]
      is the exact floor [(a * c) / b]; the source evaluates it in doubles.
    - A participant's name, the one string the code cuts, is the sequence
      of its UTF-16 code units ([CodeUnits]); the strings that are only
      compared or passed on (codes, ids, answers, prompts) are [string].
    - A JS [Map] is an association list in insertion order ([JsMap]);
      [set] on a present key updates in place, as [Map.prototype.set] does.
    - [uuid()] and [Math.random()] are oracles carried by the event.
    - A handler returns the new registry and, in order, what it sent: the
      callback reply ([Cb]) and the room broadcasts ([Emit]).
    - A pending [setTimeout] is the record of when it was armed and with
      which delay; it may fire at any time not before [armedAt] plus the
      delay Node makes of it ([effectiveDelay]: a delay below 1 or above
      2147483647 is set to 1).
    - An event is a request that carries its payload object and a callback;
      what is sent when the callback is absent is [sent false].
    - Events are handled one at a time, at non-decreasing readings of the
      clock ([step]). *)

From Stdlib Require Import ZArith List String Ascii Bool Lia.
From Stdlib Require Import DecimalString DecimalN.
From Stdlib Require Import Sorting.Permutation Sorting.Sorted.
Import ListNotations.
Open Scope string_scope.
Open Scope list_scope.
Open Scope Z_scope.

(** ** JS [Map] with string keys *)

Module JsMap.

Definition t (V : Type) : Type := list (string * V).

Definition empty {V : Type} : t V := [].

Fixpoint get {V : Type} (k : string) (m : t V) : option V :=
  match m with
  | [] => None
  | (k', v) :: rest => if String.eqb k' k then Some v else get k rest
  end.

Definition has {V : Type} (k : string) (m : t V) : bool :=
  match get k m with Some _ => true | None => false end.

Fixpoint set {V : Type} (k : string) (v : V) (m : t V) : t V :=
  match m with
  | [] => [(k, v)]
  | (k', v') :: rest =>
      if String.eqb k' k then (k', v) :: rest else (k', v') :: set k v rest
  end.

Definition delete {V : Type} (k : string) (m : t V) : t V :=
  filter (fun e => negb (String.eqb (fst e) k)) m.

Definition keys {V : Type} (m : t V) : list string := map fst m.

Definition values {V : Type} (m : t V) : list V := map snd m.

(** Number of entries stored under [k]. *)
Definition count {V : Type} (k : string) (m : t V) : nat :=
  List.length (filter (fun e => String.eqb (fst e) k) m).

End JsMap.

(** ** Data model *)

(** The UTF-16 code units of a JS string. *)
Definition CodeUnits : Type := list N.

(** The code units of an ASCII literal. *)
Definition utf16 (s : string) : CodeUnits :=
  map N_of_ascii (list_ascii_of_string s).

Record RawQuestion : Type := mkRawQuestion {
  raw_id : option string;
  raw_prompt : string;
  raw_options : list string;
  raw_answer : string;
  raw_durationMs : option Z
}.

Record Question : Type := mkQuestion {
  q_id : string;
  prompt : string;
  options : list string;
  answer : string;
  durationMs : Z
}.

Record LastAnswer : Type := mkLastAnswer {
  qid : string;
  la_correct : bool;
  la_gained : Z;
  la_timeBonus : Z;
  la_streakBonus : Z;
  la_penalty : Z
}.

Record Player : Type := mkPlayer {
  p_id : string;
  socketId : string;
  name : CodeUnits;
  score : Z;
  lastAnswer : option LastAnswer;
  streak : Z
}.

Record Timer : Type := mkTimer {
  armedAt : Z;
  delayMs : Z
}.

Record Session : Type := mkSession {
  s_id : string;
  s_pin : string;
  hostSocketId : string;
  players : JsMap.t Player;
  questions : list Question;
  questionIdx : Z;
  deadline : option Z;
  timer : option Timer
}.

Definition Registry : Type := JsMap.t Session.

(** What a handler sends. *)

Record Row : Type := mkRow {
  r_id : string;
  r_name : CodeUnits;
  r_score : Z;
  r_lastAnswer : option LastAnswer
}.

Inductive Reply : Type :=
| ReplyCreated (pin sessionId : string)
| ReplyOk
| ReplyFail (reason : string)
| ReplyJoined (playerId pin : string)
| ReplyAnswer (correct : bool) (gained penalty : Z) (right : string) (streak : Z).

Inductive Message : Type :=
| MsgQuestion (id prompt : string) (options : list string)
              (deadline : Z) (idx : Z) (total : nat)
| MsgSessionEnd (reason : string)
| MsgPlayerJoined (id : string) (name : CodeUnits)
| MsgLeaderboard (rows : list Row).

Inductive Output : Type :=
| Cb (r : Reply)
| Emit (room : string) (m : Message).

(** Result object of [scoreAnswer]; [penalty] is absent on the correct path. *)
Inductive ScoreResult : Type :=
| ScoreFail (reason : string)
| ScoreOk (isCorrect : bool) (gained : Z) (penalty : option Z)
          (correct : string) (streak : Z).

(** ** Scoring constants *)

Definition BASE_SCORE : Z := 1000.
Definition TIME_BONUS_MAX : Z := 500.
Definition STREAK_STEP : Z := 100.

(** ** JS truthiness of the values the source tests with [||] *)

Definition truthyString (s : option string) : option string :=
  match s with
  | Some EmptyString => None
  | other => other
  end.

Definition truthyUnits (s : option CodeUnits) : option CodeUnits :=
  match s with
  | Some [] => None
  | other => other
  end.

Definition truthyNumber (z : option Z) : option Z :=
  match z with
  | Some 0 => None
  | other => other
  end.

Definition orElse {A : Type} (x : option A) (d : A) : A :=
  match x with Some a => a | None => d end.

(** ** Session registry *)

(** [genPin] on the draw [r = floor (Math.random () * 900000)]. *)
Definition genPin (r : Z) : string :=
  NilZero.string_of_uint (N.to_uint (Z.to_N (100000 + r))).

(** The [while (SESSIONS.has(pin)) pin = genPin()] loop over the successive
    draws; [None] when every draw of the list collides. *)
Fixpoint pickPin (SESSIONS : Registry) (draws : list Z) : option string :=
  match draws with
  | [] => None
  | r :: rest =>
      let pin := genPin r in
      if JsMap.has pin SESSIONS then pickPin SESSIONS rest else Some pin
  end.

Definition createSession (SESSIONS : Registry) (hostSocketId : string)
    (draws : list Z) (uuid : string) : option (Session * Registry) :=
  match pickPin SESSIONS draws with
  | None => None
  | Some pin =>
      let session :=
        {| s_id := uuid; s_pin := pin; hostSocketId := hostSocketId;
           players := JsMap.empty; questions := []; questionIdx := -1;
           deadline := None; timer := None |} in
      Some (session, JsMap.set pin session SESSIONS)
  end.

(** ** Session field updates *)

Definition withPlayers (ps : JsMap.t Player) (s : Session) : Session :=
  {| s_id := s_id s; s_pin := s_pin s; hostSocketId := hostSocketId s;
     players := ps; questions := questions s; questionIdx := questionIdx s;
     deadline := deadline s; timer := timer s |}.

Definition withQuestions (qs : list Question) (s : Session) : Session :=
  {| s_id := s_id s; s_pin := s_pin s; hostSocketId := hostSocketId s;
     players := players s; questions := qs; questionIdx := questionIdx s;
     deadline := deadline s; timer := timer s |}.

Definition withQuestionIdx (i : Z) (s : Session) : Session :=
  {| s_id := s_id s; s_pin := s_pin s; hostSocketId := hostSocketId s;
     players := players s; questions := questions s; questionIdx := i;
     deadline := deadline s; timer := timer s |}.

Definition withDeadline (d : option Z) (s : Session) : Session :=
  {| s_id := s_id s; s_pin := s_pin s; hostSocketId := hostSocketId s;
     players := players s; questions := questions s;
     questionIdx := questionIdx s; deadline := d; timer := timer s |}.

Definition withTimer (t : option Timer) (s : Session) : Session :=
  {| s_id := s_id s; s_pin := s_pin s; hostSocketId := hostSocketId s;
     players := players s; questions := questions s;
     questionIdx := questionIdx s; deadline := deadline s; timer := t |}.

(** ** Participants *)

Definition addPlayer (session : Session) (socket : string)
    (name : option CodeUnits) (uuid : string) : Player * Session :=
  let player :=
    {| p_id := uuid;
       socketId := socket;
       name := firstn 40 (orElse (truthyUnits name) (utf16 "Guest"));
       score := 0;
       lastAnswer := None;
       streak := 0 |} in
  (player, withPlayers (JsMap.set socket player (players session)) session).

(** ** Scoring engine *)

Definition currentQuestion (session : Session) : option Question :=
  if questionIdx session <? 0 then None
  else nth_error (questions session) (Z.to_nat (questionIdx session)).

(** [player.lastAnswer && player.lastAnswer.qid === q.id] *)
Definition answeredThis (player : Player) (q : Question) : bool :=
  match lastAnswer player with
  | Some la => String.eqb (qid la) (q_id q)
  | None => false
  end.

(** [!session.deadline || now > session.deadline] *)
Definition pastDeadline (session : Session) (now : Z) : bool :=
  match truthyNumber (deadline session) with
  | None => true
  | Some dl => now >? dl
  end.

(** [Math.floor((remainingMs / q.durationMs) * TIME_BONUS_MAX)] with
    [remainingMs = Math.max(0, deadline - now)]. *)
Definition timeBonusAt (dl duration now : Z) : Z :=
  let remainingMs := Z.max 0 (dl - now) in
  (remainingMs * TIME_BONUS_MAX) / duration.

Definition scoreAnswer (session : Session) (player : Player)
    (payload_answer : string) (now : Z) : ScoreResult * Player :=
  match currentQuestion session with
  | None => (ScoreFail "no-question", player)
  | Some q =>
      if answeredThis player q then (ScoreFail "already-answered", player)
      else if pastDeadline session now then (ScoreFail "too-late", player)
      else
        let isCorrect := String.eqb payload_answer (answer q) in
        let timeBonus := timeBonusAt (orElse (deadline session) 0)
                                     (durationMs q) now in
        if isCorrect then
          let streak' := streak player + 1 in
          let streakBonus := streak' * STREAK_STEP in
          let gained := BASE_SCORE + timeBonus + streakBonus in
          (ScoreOk true gained None (answer q) streak',
           {| p_id := p_id player; socketId := socketId player;
              name := name player;
              score := score player + gained;
              lastAnswer :=
                Some {| qid := q_id q; la_correct := true;
                        la_gained := gained; la_timeBonus := timeBonus;
                        la_streakBonus := streakBonus; la_penalty := 0 |};
              streak := streak' |})
        else
          let penalty := streak player * STREAK_STEP in
          (ScoreOk false 0 (Some penalty) (answer q) 0,
           {| p_id := p_id player; socketId := socketId player;
              name := name player;
              score := Z.max 0 (score player - penalty);
              lastAnswer :=
                Some {| qid := q_id q; la_correct := false;
                        la_gained := 0; la_timeBonus := 0;
                        la_streakBonus := 0; la_penalty := penalty |};
              streak := 0 |})
  end.

(** ** Broadcasts *)

Definition rowOf (p : Player) : Row :=
  {| r_id := p_id p; r_name := name p; r_score := score p;
     r_lastAnswer := lastAnswer p |}.

(** Stable insertion for the comparator [(a, b) => b.score - a.score]. *)
Fixpoint insertRow (r : Row) (sorted : list Row) : list Row :=
  match sorted with
  | [] => [r]
  | h :: rest =>
      if r_score r <? r_score h then h :: insertRow r rest
      else r :: h :: rest
  end.

Definition sortRows (rows : list Row) : list Row :=
  fold_right insertRow [] rows.

Definition emitLeaderboard (session : Session) : Output :=
  Emit (s_pin session)
       (MsgLeaderboard (sortRows (map rowOf (JsMap.values (players session))))).

Definition endSession (session : Session) (reason : string)
    : Session * list Output :=
  (withTimer None session, [Emit (s_pin session) (MsgSessionEnd reason)]).

(** ** Session state machine *)

Definition nextQuestion (session : Session) (now : Z)
    : Session * Reply * list Output :=
  let s1 := withTimer None session in
  let s2 := withQuestionIdx (questionIdx s1 + 1) s1 in
  match currentQuestion s2 with
  | None =>
      let '(s3, out) := endSession s2 "done" in
      (s3, ReplyFail "no-more", out)
  | Some q =>
      let s3 := withDeadline (Some (now + durationMs q)) s2 in
      let out :=
        Emit (s_pin s3)
             (MsgQuestion (q_id q) (prompt q) (options q)
                          (now + durationMs q) (questionIdx s3)
                          (List.length (questions s3))) in
      let s4 :=
        withTimer (Some {| armedAt := now; delayMs := durationMs q + 50 |}) s3 in
      (s4, ReplyOk, [out])
  end.

(** The largest delay, in milliseconds, that Node's [setTimeout] honours. *)
Definition TIMEOUT_MAX : Z := 2147483647.

(** The delay Node's [setTimeout] waits for: a delay that is below 1 or
    above [TIMEOUT_MAX] is set to 1. *)
Definition effectiveDelay (delay : Z) : Z :=
  if (delay <? 1) || (TIMEOUT_MAX <? delay) then 1 else delay.

(** The contract of [setTimeout]: the callback runs no earlier than the
    effective delay after the timer was armed. *)
Definition timerMayFire (t : Timer) (now : Z) : Prop :=
  armedAt t + effectiveDelay (delayMs t) <= now.

Definition timerDue (t : Timer) (now : Z) : bool :=
  armedAt t + effectiveDelay (delayMs t) <=? now.

(** The [questions.map] of [session:start]; [uuid k] is the result of the
    [k]-th call of [uuid()] made by the handler. *)
Fixpoint normalizeQuestions (raw : list RawQuestion) (uuid : nat -> string)
    (k : nat) : list Question :=
  match raw with
  | [] => []
  | q :: rest =>
      let d := orElse (truthyNumber (raw_durationMs q)) 15000 in
      match truthyString (raw_id q) with
      | Some i =>
          mkQuestion i (raw_prompt q) (raw_options q) (raw_answer q) d
            :: normalizeQuestions rest uuid k
      | None =>
          mkQuestion (uuid k) (raw_prompt q) (raw_options q) (raw_answer q) d
            :: normalizeQuestions rest uuid (S k)
      end
  end.

(** ** Socket handlers

    Each handler is run for the connection [socket] on the registry. *)

Definition on_session_create (SESSIONS : Registry) (socket : string)
    (draws : list Z) (uuid : string) : option (Registry * list Output) :=
  match createSession SESSIONS socket draws uuid with
  | None => None
  | Some (session, SESSIONS') =>
      Some (SESSIONS', [Cb (ReplyCreated (s_pin session) (s_id session))])
  end.

Definition on_session_start (SESSIONS : Registry) (socket pin : string)
    (questions : option (list RawQuestion)) (uuid : nat -> string) (now : Z)
    : Registry * list Output :=
  match JsMap.get pin SESSIONS with
  | None => (SESSIONS, [Cb (ReplyFail "not-host")])
  | Some session =>
      if negb (String.eqb (hostSocketId session) socket)
      then (SESSIONS, [Cb (ReplyFail "not-host")])
      else
        let s1 :=
          withQuestions (normalizeQuestions (orElse questions []) uuid 0)
                        session in
        let s2 := withQuestionIdx (-1) s1 in
        let '(s3, _, outs) := nextQuestion s2 now in
        (JsMap.set pin s3 SESSIONS, Cb ReplyOk :: outs)
  end.

Definition on_question_next (SESSIONS : Registry) (socket pin : string)
    (now : Z) : Registry * list Output :=
  match JsMap.get pin SESSIONS with
  | None => (SESSIONS, [Cb (ReplyFail "not-host")])
  | Some session =>
      if negb (String.eqb (hostSocketId session) socket)
      then (SESSIONS, [Cb (ReplyFail "not-host")])
      else
        let '(s', res, outs) := nextQuestion session now in
        (JsMap.set pin s' SESSIONS, outs ++ [Cb res])
  end.

Definition on_join (SESSIONS : Registry) (socket pin : string)
    (name_ : option CodeUnits) (uuid : string) : Registry * list Output :=
  match JsMap.get pin SESSIONS with
  | None => (SESSIONS, [Cb (ReplyFail "not-found")])
  | Some session =>
      let '(player, s') :=
        addPlayer session socket
                  (Some (orElse (truthyUnits name_) (utf16 "Guest")))
                  uuid in
      (JsMap.set pin s' SESSIONS,
       [Emit pin (MsgPlayerJoined (p_id player) (name player));
        emitLeaderboard s';
        Cb (ReplyJoined (p_id player) pin)])
  end.

Definition on_answer (SESSIONS : Registry) (socket pin : string)
    (answer : string) (now : Z) : Registry * list Output :=
  match JsMap.get pin SESSIONS with
  | None => (SESSIONS, [Cb (ReplyFail "not-found")])
  | Some session =>
      match JsMap.get socket (players session) with
      | None => (SESSIONS, [Cb (ReplyFail "not-joined")])
      | Some player =>
          match scoreAnswer session player answer now with
          | (ScoreFail reason, _) => (SESSIONS, [Cb (ReplyFail reason)])
          | (ScoreOk isCorrect gained penalty correct streak, player') =>
              let s' :=
                withPlayers (JsMap.set socket player' (players session))
                            session in
              (JsMap.set pin s' SESSIONS,
               [Cb (ReplyAnswer isCorrect gained
                                (orElse (truthyNumber penalty) 0)
                                correct streak);
                emitLeaderboard s'])
          end
      end
  end.

(** The [for (const [pin, session] of SESSIONS.entries())] loop. *)
Fixpoint on_disconnect (SESSIONS : Registry) (socket : string)
    : Registry * list Output :=
  match SESSIONS with
  | [] => ([], [])
  | (pin, session) :: rest =>
      let '(rest', outs) := on_disconnect rest socket in
      if String.eqb (hostSocketId session) socket then
        let '(_, ended) := endSession session "host-left" in
        (rest', ended ++ outs)
      else if JsMap.has socket (players session) then
        let s' := withPlayers (JsMap.delete socket (players session)) session in
        ((pin, s') :: rest', emitLeaderboard s' :: outs)
      else ((pin, session) :: rest', outs)
  end.

(** The callback [() => nextQuestion(session)] of the pending timer of the
    session registered under [pin]; [None] when no timer of it is due. *)
Definition on_timer (SESSIONS : Registry) (pin : string) (now : Z)
    : option (Registry * list Output) :=
  match JsMap.get pin SESSIONS with
  | None => None
  | Some session =>
      match timer session with
      | None => None
      | Some t =>
          if timerDue t now then
            let '(s', _, outs) := nextQuestion session now in
            Some (JsMap.set pin s' SESSIONS, outs)
          else None
      end
  end.

(** ** The server as a transition system *)

Inductive Event : Type :=
| session_create (socket : string) (draws : list Z) (uuid : string)
| session_start (socket pin : string) (questions : option (list RawQuestion))
                (uuid : nat -> string)
| question_next (socket pin : string)
| join (socket pin : string) (name : option CodeUnits) (uuid : string)
| submit_answer (socket pin : string) (answer : string)
| disconnect (socket : string)
| timer_fires (pin : string).

Record World : Type := mkWorld {
  SESSIONS : Registry;
  clock : Z
}.

Definition initial : World := {| SESSIONS := JsMap.empty; clock := 0 |}.

Definition handle (reg : Registry) (now : Z) (e : Event)
    : option (Registry * list Output) :=
  match e with
  | session_create socket draws uuid => on_session_create reg socket draws uuid
  | session_start socket pin qs uuid =>
      Some (on_session_start reg socket pin qs uuid now)
  | question_next socket pin => Some (on_question_next reg socket pin now)
  | join socket pin name uuid => Some (on_join reg socket pin name uuid)
  | submit_answer socket pin a => Some (on_answer reg socket pin a now)
  | disconnect socket => Some (on_disconnect reg socket)
  | timer_fires pin => on_timer reg pin now
  end.

(** One event handled at time [now]; the clock never runs backwards. *)
Definition step (w : World) (now : Z) (e : Event)
    : option (World * list Output) :=
  if now <? clock w then None
  else
    match handle (SESSIONS w) now e with
    | None => None
    | Some (reg, outs) => Some ({| SESSIONS := reg; clock := now |}, outs)
    end.

Fixpoint run (w : World) (trace : list (Z * Event))
    : option (World * list Output) :=
  match trace with
  | [] => Some (w, [])
  | (now, e) :: rest =>
      match step w now e with
      | None => None
      | Some (w', outs) =>
          match run w' rest with
          | None => None
          | Some (w'', outs') => Some (w'', outs ++ outs')
          end
      end
  end.

Inductive reachable : World -> Prop :=
| reachable_initial : reachable initial
| reachable_step w now e w' outs :
    reachable w -> step w now e = Some (w', outs) -> reachable w'.

(** The last callback reply among the outputs. *)
Fixpoint lastReply (outs : list Output) : option Reply :=
  match outs with
  | [] => None
  | Cb r :: rest =>
      match lastReply rest with Some r' => Some r' | None => Some r end
  | Emit _ _ :: rest => lastReply rest
  end.

(** ** The earlier [server.js]

    The same server before streak scoring: its [scoreAnswer] has no streak
    and no penalty, and its [nextQuestion] arms the timer with the bare
    duration.  The session record is the same; its players carry no
    streak. *)

Module ServerJs.

Record LastAnswer : Type := mkLastAnswer {
  qid : string;
  correct : bool;
  gained : Z
}.

Record Player : Type := mkPlayer {
  id : string;
  socketId : string;
  name : CodeUnits;
  score : Z;
  lastAnswer : option LastAnswer
}.

Inductive ScoreResult : Type :=
| ScoreFail (reason : string)
| ScoreOk (isCorrect : bool) (gained : Z) (correct : string).

Definition answeredThis (player : Player) (q : Question) : bool :=
  match lastAnswer player with
  | Some la => String.eqb (qid la) (q_id q)
  | None => false
  end.

Definition scoreAnswer (session : Session) (player : Player)
    (payload_answer : string) (now : Z) : ScoreResult * Player :=
  match currentQuestion session with
  | None => (ScoreFail "no-question", player)
  | Some q =>
      if answeredThis player q then (ScoreFail "already-answered", player)
      else if pastDeadline session now then (ScoreFail "too-late", player)
      else
        let isCorrect := String.eqb payload_answer (answer q) in
        let gained :=
          if isCorrect
          then 1000 + timeBonusAt (orElse (deadline session) 0)
                                  (durationMs q) now
          else 0 in
        (ScoreOk isCorrect gained (answer q),
         {| id := id player; socketId := socketId player;
            name := name player;
            score := if isCorrect then score player + gained
                     else score player;
            lastAnswer :=
              Some {| qid := q_id q; correct := isCorrect;
                      gained := gained |} |})
  end.

Definition nextQuestion (session : Session) (now : Z)
    : Session * Reply * list Output :=
  let s1 := withTimer None session in
  let s2 := withQuestionIdx (questionIdx s1 + 1) s1 in
  match currentQuestion s2 with
  | None =>
      let '(s3, out) := endSession s2 "done" in
      (s3, ReplyFail "no-more", out)
  | Some q =>
      let s3 := withDeadline (Some (now + durationMs q)) s2 in
      let out :=
        Emit (s_pin s3)
             (MsgQuestion (q_id q) (prompt q) (options q)
                          (now + durationMs q) (questionIdx s3)
                          (List.length (questions s3))) in
      let s4 :=
        withTimer (Some {| armedAt := now; delayMs := durationMs q |}) s3 in
      (s4, ReplyOk, [out])
  end.

End ServerJs.

(** ** Invariants of the reachable worlds *)

Definition playerOk (p : Player) : Prop :=
  0 <= score p /\ 0 <= streak p.

(** A session registered under [pin], seen at clock reading [clk]. *)
Record sessionOk (clk : Z) (pin : string) (s : Session) : Prop := {
  ok_pin : s_pin s = pin;
  ok_keys : NoDup (JsMap.keys (players s));
  ok_players : Forall (fun e => playerOk (snd e)) (players s);
  ok_durations : Forall (fun q => durationMs q <> 0) (questions s);
  ok_idx : -1 <= questionIdx s;
  ok_deadline : forall q, currentQuestion s = Some q ->
      exists t0, 0 <= t0 <= clk /\ deadline s = Some (t0 + durationMs q);
  ok_timer : forall tm, timer s = Some tm ->
      exists q, currentQuestion s = Some q
        /\ deadline s = Some (armedAt tm + durationMs q)
        /\ delayMs tm = durationMs q + 50
        /\ 0 <= armedAt tm <= clk
}.

Definition regOk (clk : Z) (reg : Registry) : Prop :=
  NoDup (JsMap.keys reg)
  /\ Forall (fun e => sessionOk clk (fst e) (snd e)) reg.

Definition worldOk (w : World) : Prop :=
  0 <= clock w /\ regOk (clock w) (SESSIONS w).

(** ** The precondition checks of the specification

    The ordered list of section 4.2: a question must be active, the
    participant must not have answered it, and [now] must not be past the
    deadline.  The reason code of the first failing check, if any. *)

Definition firstFailingCheck (s : Session) (p : Player) (now : Z)
    : option string :=
  match currentQuestion s with
  | None => Some "no-question"
  | Some q =>
      if answeredThis p q then Some "already-answered"
      else if pastDeadline s now then Some "too-late"
      else None
  end.

(** ** The cursor positions the specification allows *)



(** ** Scenario A of the specification

    A session is created, started with one question (answer "Hello",
    15000 ms), a participant joins and answers "Hello" at the very reading
    of the clock at which the question was asked. *)

Definition helloQuestion : RawQuestion :=
  {| raw_id := None; raw_prompt := "Annyeong?";
     raw_options := ["Hello"; "Bye"]; raw_answer := "Hello";
     raw_durationMs := Some 15000 |}.

Definition scenarioA (host player : string) (draw : Z) (created asked : Z)
    : list (Z * Event) :=
  [ (created, session_create host [draw] "session-1");
    (asked, session_start host (genPin draw) (Some [helloQuestion])
                          (fun _ => "question-1"));
    (asked, join player (genPin draw) (Some (utf16 "P1")) "player-1");
    (asked, submit_answer player (genPin draw) "Hello") ].

(** The world a trace leads to from the initial one. *)
Definition worldAfter (trace : list (Z * Event)) : World :=
  match run initial trace with
  | Some (w, _) => w
  | None => initial
  end.

Definition repliesOf (trace : list (Z * Event)) : list Output :=
  match run initial trace with
  | Some (_, outs) => outs
  | None => []
  end.

(** ** Further traces

    [streakTrace] leads to the setting of scenario B: the participant has
    answered two questions correctly (streak 2) and a third question, whose
    answer is "Hello", is open.  In [overrunTrace] the host keeps advancing
    after the last question; in [hostLeftTrace] the host leaves and the code
    is used again. *)

Definition threeQuestions : list RawQuestion :=
  [ {| raw_id := Some "q1"; raw_prompt := "one"; raw_options := ["a"; "b"];
       raw_answer := "a"; raw_durationMs := Some 10000 |};
    {| raw_id := Some "q2"; raw_prompt := "two"; raw_options := ["a"; "b"];
       raw_answer := "b"; raw_durationMs := None |};
    {| raw_id := None; raw_prompt := "three"; raw_options := ["Hello"; "Bye"];
       raw_answer := "Hello"; raw_durationMs := Some 0 |} ].

Definition streakTrace : list (Z * Event) :=
  [ (1000, session_create "host" [23456] "session-1");
    (1500, join "p1" "123456" (Some (utf16 "P1")) "player-1");
    (2000, session_start "host" "123456" (Some threeQuestions)
                         (fun _ => "question-3"));
    (4000, submit_answer "p1" "123456" "a");
    (12050, timer_fires "123456");
    (13000, submit_answer "p1" "123456" "b") ;
    (14000, question_next "host" "123456") ].

Definition overrunTrace : list (Z * Event) :=
  [ (1000, session_create "host" [23456] "session-1");
    (2000, session_start "host" "123456" (Some [helloQuestion])
                         (fun _ => "question-1"));
    (3000, question_next "host" "123456");
    (4000, question_next "host" "123456") ].

Definition hostLeftTrace : list (Z * Event) :=
  [ (1000, session_create "host" [23456] "session-1");
    (2000, session_start "host" "123456" (Some [helloQuestion])
                         (fun _ => "question-1"));
    (3000, disconnect "host");
    (4000, question_next "host" "123456") ].

(** A question of 2147483648 ms, asked after a participant has joined. *)
Definition longQuestion : RawQuestion :=
  {| raw_id := None; raw_prompt := "Annyeong?";
     raw_options := ["Hello"; "Bye"]; raw_answer := "Hello";
     raw_durationMs := Some 2147483648 |}.

Definition longQuestionTrace : list (Z * Event) :=
  [ (1000, session_create "host" [23456] "session-1");
    (1500, join "p1" "123456" (Some (utf16 "P1")) "player-1");
    (2000, session_start "host" "123456" (Some [longQuestion])
                         (fun _ => "question-1")) ].

(** ** Notions used by the further properties *)

(** Row [a] may stand before row [b] on the leaderboard. *)
Definition rankedBefore (a b : Row) : Prop := r_score b <= r_score a.


(** Number of callback replies among the outputs. *)
Fixpoint replyCount (outs : list Output) : nat :=
  match outs with
  | [] => 0%nat
  | Cb _ :: rest => S (replyCount rest)
  | Emit _ _ :: rest => replyCount rest
  end.

Definition isReply (o : Output) : bool :=
  match o with
  | Cb _ => true
  | Emit _ _ => false
  end.

(** What is sent of the outputs of a handler: each reply is made by
    [cb?.(...)], which does nothing when the request came without a
    callback. *)
Definition sent (hasCallback : bool) (outs : list Output) : list Output :=
  if hasCallback then outs else filter (fun o => negb (isReply o)) outs.

(** Events that carry a callback: all but disconnect and the timer. *)
Definition isRequest (e : Event) : bool :=
  match e with
  | disconnect _ | timer_fires _ => false
  | _ => true
  end.

(** The check that the codes of the draws [0 .. n-1] have six characters,
    run over the draws in turn; the state is the next draw and the verdict
    so far. *)
Definition sixDigitsUpTo (n : N) : Z * bool :=
  N.iter n (fun st => (fst st + 1,
                       snd st && Nat.eqb (String.length (genPin (fst st))) 6))
         (0, true).

(** * Properties *)

(** Closes a goal between closed terms by evaluation. *)
Ltac evaluated := vm_compute; reflexivity.

(** ** JS [Map] lemmas *)

Section JsMapFacts.

Context {V : Type}.
Implicit Types (m : JsMap.t V) (k : string) (v : V).

Lemma get_set_same k v m : JsMap.get k (JsMap.set k v m) = Some v.
Proof.
  induction m as [|[k' v'] rest IH]; simpl.
  - now rewrite String.eqb_refl.
  - destruct (String.eqb k' k) eqn:E; simpl; rewrite E; auto.
Qed.

Lemma get_set_other k k' v m :
  k <> k' -> JsMap.get k' (JsMap.set k v m) = JsMap.get k' m.
Proof.
  intros Hne. induction m as [|[k0 v0] rest IH]; simpl.
  - destruct (String.eqb_spec k k'); [contradiction | reflexivity].
  - destruct (String.eqb_spec k0 k) as [->|]; simpl.
    + destruct (String.eqb_spec k k'); [contradiction | reflexivity].
    + now rewrite IH.
Qed.

Lemma get_delete_same k m : JsMap.get k (JsMap.delete k m) = None.
Proof.
  unfold JsMap.delete.
  induction m as [|[k' v'] rest IH]; simpl; auto.
  destruct (String.eqb k' k) eqn:E; simpl; auto. now rewrite E.
Qed.

Lemma get_delete_other k k' m :
  k <> k' -> JsMap.get k' (JsMap.delete k m) = JsMap.get k' m.
Proof.
  intros Hne. unfold JsMap.delete.
  induction m as [|[k0 v0] rest IH]; simpl; auto.
  destruct (String.eqb_spec k0 k) as [->|]; simpl.
  - destruct (String.eqb_spec k k'); [contradiction | assumption].
  - now rewrite IH.
Qed.

Lemma get_In k v m : JsMap.get k m = Some v -> In (k, v) m.
Proof.
  induction m as [|[k' v'] rest IH]; simpl; [discriminate|].
  destruct (String.eqb_spec k' k) as [->|]; intros H.
  - injection H as ->. now left.
  - right; auto.
Qed.

Lemma get_None_keys k m : JsMap.get k m = None -> ~ In k (JsMap.keys m).
Proof.
  induction m as [|[k' v'] rest IH]; simpl; [tauto|].
  destruct (String.eqb_spec k' k); [discriminate|].
  intros H [?|?]; [contradiction | now apply IH].
Qed.

Lemma In_get k v m :
  NoDup (JsMap.keys m) -> In (k, v) m -> JsMap.get k m = Some v.
Proof.
  induction m as [|[k' v'] rest IH]; simpl; [tauto|].
  intros Hnd [Heq|Hin]; inversion Hnd as [|? ? Hni Hnd']; subst.
  - injection Heq as -> ->. now rewrite String.eqb_refl.
  - destruct (String.eqb_spec k' k) as [->|]; [|auto].
    exfalso. apply Hni. change k with (fst (k, v)). now apply in_map.
Qed.

Lemma keys_set_in k v m :
  In k (JsMap.keys m) -> JsMap.keys (JsMap.set k v m) = JsMap.keys m.
Proof.
  induction m as [|[k' v'] rest IH]; simpl; [tauto|].
  destruct (String.eqb_spec k' k) as [->|]; simpl; [reflexivity|].
  intros [?|?]; [contradiction | now rewrite IH].
Qed.

Lemma keys_set_notin k v m :
  ~ In k (JsMap.keys m) -> JsMap.keys (JsMap.set k v m) = JsMap.keys m ++ [k].
Proof.
  induction m as [|[k' v'] rest IH]; simpl; [reflexivity|].
  destruct (String.eqb_spec k' k) as [->|]; simpl; [tauto|].
  intros H. rewrite IH; tauto.
Qed.

Lemma NoDup_keys_set k v m :
  NoDup (JsMap.keys m) -> NoDup (JsMap.keys (JsMap.set k v m)).
Proof.
  intros Hnd. destruct (in_dec string_dec k (JsMap.keys m)) as [Hin|Hni].
  - now rewrite keys_set_in.
  - rewrite keys_set_notin by assumption.
    apply NoDup_app; [assumption | repeat constructor; simpl; tauto |].
    intros x Hx [<-|[]]. contradiction.
Qed.

Lemma NoDup_keys_delete k m :
  NoDup (JsMap.keys m) -> NoDup (JsMap.keys (JsMap.delete k m)).
Proof.
  unfold JsMap.delete, JsMap.keys.
  induction m as [|[k' v'] rest IH]; simpl; [auto|].
  intros Hnd. inversion Hnd as [|? ? Hni Hnd']; subst.
  destruct (String.eqb k' k); simpl; [auto|].
  constructor; [|auto].
  intros Hin. apply Hni. apply in_map_iff in Hin as [e [He Hin]].
  apply filter_In in Hin as [Hin _]. apply in_map_iff. eauto.
Qed.

Lemma Forall_set (P : string * V -> Prop) k v m :
  Forall P m -> P (k, v) -> Forall P (JsMap.set k v m).
Proof.
  intros Hall Hp. induction Hall as [|[k' v'] rest Hh Ht IH]; simpl.
  - now constructor.
  - destruct (String.eqb_spec k' k) as [->|]; constructor; auto.
Qed.

Lemma Forall_delete (P : string * V -> Prop) k m :
  Forall P m -> Forall P (JsMap.delete k m).
Proof.
  intros Hall. unfold JsMap.delete. apply Forall_forall. intros e He.
  apply filter_In in He as [He _]. revert e He. now apply Forall_forall.
Qed.

Lemma Forall_get (P : string * V -> Prop) k v m :
  Forall P m -> JsMap.get k m = Some v -> P (k, v).
Proof.
  intros Hall Hget. apply get_In in Hget. revert Hget.
  now apply Forall_forall.
Qed.

Lemma has_get k m :
  JsMap.has k m = true <-> exists v, JsMap.get k m = Some v.
Proof.
  unfold JsMap.has. destruct (JsMap.get k m) as [v|]; split.
  - eauto.
  - reflexivity.
  - discriminate.
  - intros [v Hv]. discriminate.
Qed.

Lemma count_notin k m : ~ In k (JsMap.keys m) -> JsMap.count k m = 0%nat.
Proof.
  unfold JsMap.count.
  induction m as [|[k' v'] rest IH]; simpl; [reflexivity|].
  destruct (String.eqb_spec k' k) as [->|]; simpl; tauto.
Qed.

Lemma count_set k v m :
  NoDup (JsMap.keys m) -> JsMap.count k (JsMap.set k v m) = 1%nat.
Proof.
  unfold JsMap.count.
  induction m as [|[k' v'] rest IH]; simpl; intros Hnd.
  - now rewrite String.eqb_refl.
  - inversion Hnd as [|? ? Hni Hnd']; subst.
    destruct (String.eqb_spec k' k) as [->|Hne]; simpl.
    + rewrite String.eqb_refl. simpl. f_equal. now apply count_notin.
    + destruct (String.eqb_spec k' k); [contradiction | auto].
Qed.

End JsMapFacts.

(** ** Scoring engine *)

Lemma penalty_reply (z : Z) : orElse (truthyNumber (Some z)) 0 = z.
Proof. destruct z; reflexivity. Qed.

Lemma timeBonusAt_nonneg (dl duration now : Z) :
  0 < duration -> 0 <= timeBonusAt dl duration now.
Proof.
  intros Hd. unfold timeBonusAt, TIME_BONUS_MAX.
  apply Z.div_pos; lia.
Qed.

(** The bonus never exceeds [TIME_BONUS_MAX] once the question was asked. *)
Lemma timeBonusAt_le_max (asked duration now : Z) :
  0 < duration -> asked <= now ->
  timeBonusAt (asked + duration) duration now <= TIME_BONUS_MAX.
Proof.
  intros Hd Hnow. unfold timeBonusAt, TIME_BONUS_MAX.
  apply Z.div_le_upper_bound; lia.
Qed.

Lemma timeBonusAt_full (asked duration : Z) :
  duration <> 0 -> 0 <= duration ->
  timeBonusAt (asked + duration) duration asked = TIME_BONUS_MAX.
Proof.
  intros Hd Hpos. unfold timeBonusAt.
  replace (asked + duration - asked) with duration by lia.
  rewrite Z.max_r by lia. rewrite Z.mul_comm. now apply Z.div_mul.
Qed.

(** The successful paths of [scoreAnswer], spelled out. *)

Lemma scoreAnswer_correct s p now q :
  currentQuestion s = Some q ->
  answeredThis p q = false ->
  pastDeadline s now = false ->
  let timeBonus := timeBonusAt (orElse (deadline s) 0) (durationMs q) now in
  let gained := BASE_SCORE + timeBonus + (streak p + 1) * STREAK_STEP in
  scoreAnswer s p (answer q) now =
    (ScoreOk true gained None (answer q) (streak p + 1),
     {| p_id := p_id p; socketId := socketId p; name := name p;
        score := score p + gained;
        lastAnswer :=
          Some {| qid := q_id q; la_correct := true; la_gained := gained;
                  la_timeBonus := timeBonus;
                  la_streakBonus := (streak p + 1) * STREAK_STEP;
                  la_penalty := 0 |};
        streak := streak p + 1 |}).
Proof.
  intros Hq Ha Hd. unfold scoreAnswer.
  now rewrite Hq, Ha, Hd, String.eqb_refl.
Qed.

Lemma scoreAnswer_incorrect s p a now q :
  currentQuestion s = Some q ->
  answeredThis p q = false ->
  pastDeadline s now = false ->
  a <> answer q ->
  scoreAnswer s p a now =
    (ScoreOk false 0 (Some (streak p * STREAK_STEP)) (answer q) 0,
     {| p_id := p_id p; socketId := socketId p; name := name p;
        score := Z.max 0 (score p - streak p * STREAK_STEP);
        lastAnswer :=
          Some {| qid := q_id q; la_correct := false; la_gained := 0;
                  la_timeBonus := 0; la_streakBonus := 0;
                  la_penalty := streak p * STREAK_STEP |};
        streak := 0 |}).
Proof.
  intros Hq Ha Hd Hne. unfold scoreAnswer. rewrite Hq, Ha, Hd.
  destruct (String.eqb_spec a (answer q)); [contradiction | reflexivity].
Qed.

Lemma scoreAnswer_fails s p a now r :
  firstFailingCheck s p now = Some r ->
  scoreAnswer s p a now = (ScoreFail r, p).
Proof.
  unfold firstFailingCheck, scoreAnswer.
  destruct (currentQuestion s) as [q|]; [|now intros [= <-]].
  destruct (answeredThis p q); [now intros [= <-]|].
  destruct (pastDeadline s now); [now intros [= <-] | discriminate].
Qed.


(** Reading a session back after one of its players was updated. *)


Lemma pastDeadline_withPlayers ps s now :
  pastDeadline (withPlayers ps s) now = pastDeadline s now.
Proof. reflexivity. Qed.

(** C9: for a question of positive duration the time bonus does not
    increase with the submission time, and it is exactly 0 for a submission
    made at the deadline. *)
Theorem timeBonus_nonincreasing_zero_at_deadline
    (dl duration now1 now2 : Z) :
  0 < duration ->
  now1 <= now2 ->
  timeBonusAt dl duration now2 <= timeBonusAt dl duration now1
  /\ timeBonusAt dl duration dl = 0.
Proof.
  intros Hd Hle. unfold timeBonusAt, TIME_BONUS_MAX. split.
  - apply Z.div_le_mono; lia.
  - rewrite Z.sub_diag. reflexivity.
Qed.

Lemma timeBonus_nonincreasing_zero_at_deadline_witness :
  (0 < 15000 /\ 2000 <= 9500)
  /\ (timeBonusAt 17000 15000 9500 <= timeBonusAt 17000 15000 2000
      /\ timeBonusAt 17000 15000 17000 = 0).
Proof.
  split; [lia|].
  apply (timeBonus_nonincreasing_zero_at_deadline 17000 15000 2000 9500); lia.
Defined.

(** C2: a wrong answer that passes the three checks, by a participant whose
    streak is [k], is answered with gained 0 and penalty [100 * k]; the
    participant's score becomes [max 0 (score - 100 * k)], the streak 0, and
    [lastAnswer] records the miss with that penalty. *)
Theorem wrong_answer_forfeits_streak
    (reg : Registry) (socket pin a : string) (now k : Z)
    (s : Session) (p : Player) (q : Question) :
  JsMap.get pin reg = Some s ->
  JsMap.get socket (players s) = Some p ->
  currentQuestion s = Some q ->
  firstFailingCheck s p now = None ->
  a <> answer q ->
  streak p = k ->
  exists s' p',
    on_answer reg socket pin a now
      = (JsMap.set pin s' reg,
         [Cb (ReplyAnswer false 0 (100 * k) (answer q) 0);
          emitLeaderboard s'])
    /\ JsMap.get pin (JsMap.set pin s' reg) = Some s'
    /\ JsMap.get socket (players s') = Some p'
    /\ score p' = Z.max 0 (score p - 100 * k)
    /\ streak p' = 0
    /\ lastAnswer p'
       = Some {| qid := q_id q; la_correct := false; la_gained := 0;
                 la_timeBonus := 0; la_streakBonus := 0;
                 la_penalty := 100 * k |}.
Proof.
  intros Hs Hp Hq Hchk Hne Hk.
  unfold firstFailingCheck in Hchk. rewrite Hq in Hchk.
  destruct (answeredThis p q) eqn:Ha; [discriminate|].
  destruct (pastDeadline s now) eqn:Hd; [discriminate|].
  unfold on_answer. rewrite Hs, Hp.
  rewrite (scoreAnswer_incorrect s p a now q Hq Ha Hd Hne).
  rewrite penalty_reply. unfold STREAK_STEP. rewrite Hk.
  replace (k * 100) with (100 * k) by lia.
  eexists; eexists. split; [reflexivity|].
  split; [apply get_set_same|].
  split; [simpl; apply get_set_same|].
  simpl. repeat split.
Qed.

Lemma on_answer_fails reg socket pin a now s p r :
  JsMap.get pin reg = Some s ->
  JsMap.get socket (players s) = Some p ->
  firstFailingCheck s p now = Some r ->
  on_answer reg socket pin a now = (reg, [Cb (ReplyFail r)]).
Proof.
  intros Hs Hp Hchk. unfold on_answer. rewrite Hs, Hp.
  now rewrite (scoreAnswer_fails s p a now r Hchk).
Qed.


(** ** Host authorization *)

(** C8: a start-session or advance-question request for a session whose
    host is another connection is answered not-host and leaves the whole
    registry, so the session too, as it was. *)
Theorem not_host_rejected
    (reg : Registry) (socket pin : string)
    (qs : option (list RawQuestion)) (uuid : nat -> string) (now : Z)
    (s : Session) :
  JsMap.get pin reg = Some s ->
  hostSocketId s <> socket ->
  on_session_start reg socket pin qs uuid now
    = (reg, [Cb (ReplyFail "not-host")])
  /\ on_question_next reg socket pin now
    = (reg, [Cb (ReplyFail "not-host")]).
Proof.
  intros Hs Hne. unfold on_session_start, on_question_next. rewrite Hs.
  destruct (String.eqb_spec (hostSocketId s) socket); [contradiction|].
  split; reflexivity.
Qed.

(** The replies when no session is registered under the code. *)

Lemma unknown_pin_start reg socket pin qs uuid now :
  JsMap.get pin reg = None ->
  on_session_start reg socket pin qs uuid now
    = (reg, [Cb (ReplyFail "not-host")]).
Proof. intros Hs. unfold on_session_start. now rewrite Hs. Qed.

Lemma unknown_pin_next reg socket pin now :
  JsMap.get pin reg = None ->
  on_question_next reg socket pin now = (reg, [Cb (ReplyFail "not-host")]).
Proof. intros Hs. unfold on_question_next. now rewrite Hs. Qed.

Lemma unknown_pin_join reg socket pin nm uuid :
  JsMap.get pin reg = None ->
  on_join reg socket pin nm uuid = (reg, [Cb (ReplyFail "not-found")]).
Proof. intros Hs. unfold on_join. now rewrite Hs. Qed.

Lemma unknown_pin_answer reg socket pin a now :
  JsMap.get pin reg = None ->
  on_answer reg socket pin a now = (reg, [Cb (ReplyFail "not-found")]).
Proof. intros Hs. unfold on_answer. now rewrite Hs. Qed.

(** ** The invariants hold in every reachable world *)

Lemma currentQuestion_In s q : currentQuestion s = Some q -> In q (questions s).
Proof.
  unfold currentQuestion. destruct (questionIdx s <? 0); [discriminate|].
  apply nth_error_In.
Qed.

Lemma sessionOk_mono clk clk' pin s :
  clk <= clk' -> sessionOk clk pin s -> sessionOk clk' pin s.
Proof.
  intros Hle [H1 H2 H3 H4 H5 H6 H7]. constructor; auto.
  - intros q Hq. destruct (H6 q Hq) as (t0 & Ht0 & Hd).
    exists t0. split; [lia | assumption].
  - intros tm Htm. destruct (H7 tm Htm) as (q & Hq & Hd & Hdl & Ha).
    exists q. repeat split; auto; lia.
Qed.

Lemma regOk_mono clk clk' reg :
  clk <= clk' -> regOk clk reg -> regOk clk' reg.
Proof.
  intros Hle [Hnd Hall]. split; [assumption|].
  eapply Forall_impl; [|exact Hall].
  intros [pin s]. simpl. now apply sessionOk_mono.
Qed.

Lemma sessionOk_withPlayers clk pin s ps :
  sessionOk clk pin s ->
  NoDup (JsMap.keys ps) ->
  Forall (fun e => playerOk (snd e)) ps ->
  sessionOk clk pin (withPlayers ps s).
Proof.
  intros [H1 H2 H3 H4 H5 H6 H7] Hnd Hall. constructor; auto.
Qed.

Lemma normalizeQuestions_durations raw uuid k :
  Forall (fun q => durationMs q <> 0) (normalizeQuestions raw uuid k).
Proof.
  revert k. induction raw as [|r rest IH]; intros k; simpl; [constructor|].
  assert (Hd : orElse (truthyNumber (raw_durationMs r)) 15000 <> 0).
  { destruct (raw_durationMs r) as [[| |]|]; simpl; lia. }
  destruct (truthyString (raw_id r)); constructor; simpl; auto.
Qed.


Lemma nextQuestion_ok pin s now :
  s_pin s = pin ->
  NoDup (JsMap.keys (players s)) ->
  Forall (fun e => playerOk (snd e)) (players s) ->
  Forall (fun q => durationMs q <> 0) (questions s) ->
  -1 <= questionIdx s ->
  0 <= now ->
  sessionOk now pin (fst (fst (nextQuestion s now))).
Proof.
  intros H1 H2 H3 H4 H5 Hnow. unfold nextQuestion.
  destruct (currentQuestion
              (withQuestionIdx (questionIdx (withTimer None s) + 1)
                               (withTimer None s))) as [q|] eqn:Hq.
  - constructor; simpl; auto; [lia | |].
    + intros q0 Hq0.
      change (currentQuestion
                (withQuestionIdx (questionIdx (withTimer None s) + 1)
                                 (withTimer None s)) = Some q0) in Hq0.
      assert (q0 = q) by congruence. subst q0.
      exists now. split; [lia | reflexivity].
    + intros tm [= <-]. exists q. simpl. repeat split; auto; lia.
  - constructor; simpl; auto; [lia | |].
    + intros q0 Hq0.
      change (currentQuestion
                (withQuestionIdx (questionIdx (withTimer None s) + 1)
                                 (withTimer None s)) = Some q0) in Hq0.
      congruence.
    + discriminate.
Qed.

Lemma scoreAnswer_playerOk clk pin s p a now :
  sessionOk clk pin s ->
  clk <= now ->
  playerOk p ->
  playerOk (snd (scoreAnswer s p a now)).
Proof.
  intros Hok Hclk [Hsc Hst]. unfold scoreAnswer.
  destruct (currentQuestion s) as [q|] eqn:Hq; [|now split].
  destruct (answeredThis p q); [now split|].
  destruct (pastDeadline s now) eqn:Hd; [now split|].
  destruct (ok_deadline _ _ _ Hok q Hq) as (t0 & Ht0 & Hdl).
  assert (Hne : durationMs q <> 0).
  { pose proof (ok_durations _ _ _ Hok) as Hall.
    rewrite Forall_forall in Hall. apply Hall.
    now apply currentQuestion_In. }
  assert (Hpos : 0 < durationMs q).
  { unfold pastDeadline in Hd. rewrite Hdl in Hd.
    destruct (truthyNumber (Some (t0 + durationMs q))) as [dl|] eqn:Ht;
      [|discriminate].
    assert (dl = t0 + durationMs q).
    { destruct (t0 + durationMs q); simpl in Ht; congruence. }
    subst dl. rewrite Z.gtb_ltb in Hd. apply Z.ltb_ge in Hd. lia. }
  pose proof (timeBonusAt_nonneg (orElse (deadline s) 0) (durationMs q) now
                                 Hpos) as Hb.
  cbv zeta.
  set (tb := timeBonusAt (orElse (deadline s) 0) (durationMs q) now) in *.
  destruct (String.eqb a (answer q)); split; cbn [snd score streak];
    unfold BASE_SCORE, STREAK_STEP; lia.
Qed.

(** The disconnect loop. *)

Lemma disconnect_keys reg socket k :
  In k (JsMap.keys (fst (on_disconnect reg socket))) -> In k (JsMap.keys reg).
Proof.
  induction reg as [|[pin s] rest IH]; simpl; [tauto|].
  destruct (on_disconnect rest socket) as [rest' outs]. simpl in IH.
  destruct (String.eqb (hostSocketId s) socket); simpl; [tauto|].
  destruct (JsMap.has socket (players s)); simpl; tauto.
Qed.

Lemma disconnect_NoDup reg socket :
  NoDup (JsMap.keys reg) ->
  NoDup (JsMap.keys (fst (on_disconnect reg socket))).
Proof.
  induction reg as [|[pin s] rest IH]; simpl; [auto|].
  intros Hnd. inversion Hnd as [|? ? Hni Hnd']; subst.
  pose proof (disconnect_keys rest socket pin) as Hk.
  destruct (on_disconnect rest socket) as [rest' outs]. simpl in IH, Hk.
  destruct (String.eqb (hostSocketId s) socket); simpl; [auto|].
  destruct (JsMap.has socket (players s)); simpl; constructor; auto.
Qed.

Lemma disconnect_sessionOk clk reg socket :
  Forall (fun e => sessionOk clk (fst e) (snd e)) reg ->
  Forall (fun e => sessionOk clk (fst e) (snd e))
         (fst (on_disconnect reg socket)).
Proof.
  induction reg as [|[pin s] rest IH]; simpl; [auto|].
  intros Hall. inversion Hall as [|? ? Hs Hrest]; subst. simpl in Hs.
  destruct (on_disconnect rest socket) as [rest' outs]. simpl in IH.
  destruct (String.eqb (hostSocketId s) socket); simpl; [auto|].
  destruct (JsMap.has socket (players s)); simpl; constructor; auto.
  simpl. apply sessionOk_withPlayers; auto.
  - apply NoDup_keys_delete. apply (ok_keys _ _ _ Hs).
  - apply Forall_delete. apply (ok_players _ _ _ Hs).
Qed.

Lemma disconnect_host reg socket pin s :
  NoDup (JsMap.keys reg) ->
  JsMap.get pin reg = Some s ->
  hostSocketId s = socket ->
  JsMap.get pin (fst (on_disconnect reg socket)) = None
  /\ In (Emit (s_pin s) (MsgSessionEnd "host-left"))
        (snd (on_disconnect reg socket)).
Proof.
  induction reg as [|[pin0 s0] rest IH]; simpl; [discriminate|].
  intros Hnd Hget Hhost. inversion Hnd as [|? ? Hni Hnd']; subst.
  pose proof (disconnect_keys rest (hostSocketId s) pin) as Hk.
  destruct (on_disconnect rest (hostSocketId s)) as [rest' outs].
  simpl in IH, Hk.
  destruct (String.eqb_spec pin0 pin) as [->|Hne].
  - injection Hget as ->. rewrite String.eqb_refl. simpl. split; [|now left].
    destruct (JsMap.get pin rest') eqn:E; [|reflexivity].
    exfalso. apply Hni, Hk. apply get_In in E.
    change pin with (fst (pin, s0)). now apply in_map.
  - destruct (IH Hnd' Hget eq_refl) as [IH1 IH2].
    destruct (String.eqb (hostSocketId s0) (hostSocketId s)); simpl.
    + split; [assumption | now right].
    + destruct (JsMap.has (hostSocketId s) (players s0)); simpl;
        destruct (String.eqb_spec pin0 pin); try contradiction;
        split; auto.
Qed.

Lemma disconnect_guest reg socket pin s :
  NoDup (JsMap.keys reg) ->
  JsMap.get pin reg = Some s ->
  hostSocketId s <> socket ->
  let s' := if JsMap.has socket (players s)
            then withPlayers (JsMap.delete socket (players s)) s
            else s in
  JsMap.get pin (fst (on_disconnect reg socket)) = Some s'
  /\ (JsMap.has socket (players s) = true ->
      In (emitLeaderboard s') (snd (on_disconnect reg socket))).
Proof.
  induction reg as [|[pin0 s0] rest IH]; simpl; [discriminate|].
  intros Hnd Hget Hhost. inversion Hnd as [|? ? Hni Hnd']; subst.
  destruct (on_disconnect rest socket) as [rest' outs]. simpl in IH.
  destruct (String.eqb_spec pin0 pin) as [->|Hne].
  - injection Hget as ->.
    destruct (String.eqb_spec (hostSocketId s) socket); [contradiction|].
    destruct (JsMap.has socket (players s)); simpl;
      rewrite String.eqb_refl; split; auto; discriminate.
  - destruct (IH Hnd' Hget Hhost) as [IH1 IH2].
    destruct (String.eqb (hostSocketId s0) socket); simpl.
    + split; [assumption|]. intros H. right. auto.
    + destruct (JsMap.has socket (players s0)); simpl;
        destruct (String.eqb_spec pin0 pin); try contradiction;
        split; auto.
Qed.

(** Every handler keeps the registry well formed. *)

Lemma handle_regOk reg now e reg' outs :
  0 <= now ->
  regOk now reg ->
  handle reg now e = Some (reg', outs) ->
  regOk now reg'.
Proof.
  intros Hnow [Hnd Hall] Hh. destruct e; simpl in Hh.
  - (* session:create *)
    unfold on_session_create, createSession in Hh.
    destruct (pickPin reg draws) as [pin|]; [|discriminate].
    injection Hh as <- _. split; [now apply NoDup_keys_set|].
    apply Forall_set; [assumption|]. simpl.
    constructor; simpl; try discriminate; auto; try constructor; lia.
  - (* session:start *)
    injection Hh as Hh. unfold on_session_start in Hh.
    destruct (JsMap.get pin reg) as [s|] eqn:Hs;
      [|injection Hh as <- _; now split].
    destruct (negb (String.eqb (hostSocketId s) socket));
      [injection Hh as <- _; now split|].
    pose proof (Forall_get _ _ _ _ Hall Hs) as Hok. simpl in Hok.
    match type of Hh with
    | context [nextQuestion ?s2 now] =>
        pose proof (nextQuestion_ok pin s2 now) as Hnq;
        destruct (nextQuestion s2 now) as [[s3 r] o]
    end.
    injection Hh as <- _. split; [now apply NoDup_keys_set|].
    apply Forall_set; [assumption|]. simpl. simpl in Hnq. apply Hnq; auto.
    + apply (ok_pin _ _ _ Hok).
    + apply (ok_keys _ _ _ Hok).
    + apply (ok_players _ _ _ Hok).
    + apply normalizeQuestions_durations.
    + lia.
  - (* question:next *)
    injection Hh as Hh. unfold on_question_next in Hh.
    destruct (JsMap.get pin reg) as [s|] eqn:Hs;
      [|injection Hh as <- _; now split].
    destruct (negb (String.eqb (hostSocketId s) socket));
      [injection Hh as <- _; now split|].
    pose proof (Forall_get _ _ _ _ Hall Hs) as Hok. simpl in Hok.
    pose proof (nextQuestion_ok pin s now) as Hnq.
    destruct (nextQuestion s now) as [[s3 r] o].
    injection Hh as <- _. split; [now apply NoDup_keys_set|].
    apply Forall_set; [assumption|]. simpl. simpl in Hnq.
    destruct Hok. apply Hnq; auto.
  - (* join *)
    injection Hh as Hh. unfold on_join in Hh.
    destruct (JsMap.get pin reg) as [s|] eqn:Hs;
      [|injection Hh as <- _; now split].
    pose proof (Forall_get _ _ _ _ Hall Hs) as Hok. simpl in Hok.
    simpl in Hh. injection Hh as <- _. split; [now apply NoDup_keys_set|].
    apply Forall_set; [assumption|]. simpl.
    apply sessionOk_withPlayers; auto.
    + apply NoDup_keys_set. apply (ok_keys _ _ _ Hok).
    + apply Forall_set; [apply (ok_players _ _ _ Hok)|].
      simpl. split; simpl; lia.
  - (* answer *)
    injection Hh as Hh. unfold on_answer in Hh.
    destruct (JsMap.get pin reg) as [s|] eqn:Hs;
      [|injection Hh as <- _; now split].
    pose proof (Forall_get _ _ _ _ Hall Hs) as Hok. simpl in Hok.
    destruct (JsMap.get socket (players s)) as [p|] eqn:Hp;
      [|injection Hh as <- _; now split].
    pose proof (Forall_get _ _ _ _ (ok_players _ _ _ Hok) Hp) as Hpok.
    simpl in Hpok.
    pose proof (scoreAnswer_playerOk now pin s p answer0 now Hok
                  (Z.le_refl now) Hpok) as Hsc.
    destruct (scoreAnswer s p answer0 now) as [[r|c g pen cr st] p'];
      [injection Hh as <- _; now split|].
    injection Hh as <- _. split; [now apply NoDup_keys_set|].
    apply Forall_set; [assumption|]. simpl.
    apply sessionOk_withPlayers; auto.
    + apply NoDup_keys_set. apply (ok_keys _ _ _ Hok).
    + apply Forall_set; [apply (ok_players _ _ _ Hok) | exact Hsc].
  - (* disconnect *)
    injection Hh as Hh.
    pose proof (disconnect_NoDup reg socket Hnd) as H1.
    pose proof (disconnect_sessionOk now reg socket Hall) as H2.
    rewrite Hh in H1, H2. now split.
  - (* timer *)
    unfold on_timer in Hh.
    destruct (JsMap.get pin reg) as [s|] eqn:Hs; [|discriminate].
    destruct (timer s) as [t|]; [|discriminate].
    destruct (timerDue t now); [|discriminate].
    pose proof (Forall_get _ _ _ _ Hall Hs) as Hok. simpl in Hok.
    pose proof (nextQuestion_ok pin s now) as Hnq.
    destruct (nextQuestion s now) as [[s3 r] o].
    injection Hh as <- _. split; [now apply NoDup_keys_set|].
    apply Forall_set; [assumption|]. simpl. simpl in Hnq.
    destruct Hok. apply Hnq; auto.
Qed.

Lemma step_worldOk w now e w' outs :
  worldOk w -> step w now e = Some (w', outs) -> worldOk w'.
Proof.
  intros [Hclk Hreg] Hstep. unfold step in Hstep.
  destruct (now <? clock w) eqn:Hlt; [discriminate|].
  apply Z.ltb_ge in Hlt.
  destruct (handle (SESSIONS w) now e) as [[reg outs']|] eqn:Hh;
    [|discriminate].
  injection Hstep as <- _. split; simpl; [lia|].
  eapply handle_regOk; [| |exact Hh]; [lia|].
  eapply regOk_mono; eassumption.
Qed.

Lemma reachable_worldOk w : reachable w -> worldOk w.
Proof.
  induction 1 as [|w now e w' outs _ IH Hstep].
  - split; [simpl; lia|]. split; constructor.
  - eapply step_worldOk; eassumption.
Qed.

Lemma reachable_sessionOk w pin s :
  reachable w -> JsMap.get pin (SESSIONS w) = Some s ->
  sessionOk (clock w) pin s.
Proof.
  intros Hr Hs. destruct (reachable_worldOk w Hr) as [_ [_ Hall]].
  apply (Forall_get _ _ _ _ Hall Hs).
Qed.

Lemma run_reachable trace : forall w w' outs,
  reachable w -> run w trace = Some (w', outs) -> reachable w'.
Proof.
  induction trace as [|[now e] rest IH]; simpl; intros w w' outs Hr Hrun.
  - now injection Hrun as <- _.
  - destruct (step w now e) as [[w1 o1]|] eqn:Hstep; [|discriminate].
    destruct (run w1 rest) as [[w2 o2]|] eqn:Hrest; [|discriminate].
    injection Hrun as <- _.
    eapply IH; [|exact Hrest]. eapply reachable_step; eassumption.
Qed.

Lemma worldAfter_reachable trace : reachable (worldAfter trace).
Proof.
  unfold worldAfter.
  destruct (run initial trace) as [[w outs]|] eqn:Hrun.
  - eapply run_reachable; [apply reachable_initial | exact Hrun].
  - apply reachable_initial.
Qed.

(** ** Scores *)

(** C3: in every world the server can reach by handling create, start,
    advance, join, answer, disconnect and timer events at non-decreasing
    clock readings, the score of every participant of every session is a
    non-negative integer. *)
Theorem score_never_negative
    (w : World) (pin socket : string) (s : Session) (p : Player) :
  reachable w ->
  JsMap.get pin (SESSIONS w) = Some s ->
  JsMap.get socket (players s) = Some p ->
  0 <= score p.
Proof.
  intros Hr Hs Hp.
  pose proof (reachable_sessionOk w pin s Hr Hs) as Hok.
  apply (Forall_get _ _ _ _ (ok_players _ _ _ Hok) Hp).
Qed.

Lemma score_never_negative_witness :
  exists s p,
    JsMap.get "123456" (SESSIONS (worldAfter streakTrace)) = Some s
    /\ JsMap.get "p1" (players s) = Some p
    /\ score p = 3168
    /\ 0 <= score p.
Proof.
  eexists; eexists.
  split; [evaluated|]. split; [evaluated|]. split; [evaluated|].
  eapply (score_never_negative (worldAfter streakTrace) "123456" "p1").
  - apply worldAfter_reachable.
  - evaluated.
  - evaluated.
Defined.

(** ** The question cursor *)








(** ** The auto-advance timer *)

Lemma effectiveDelay_cases (delay : Z) :
  (delay < 1 /\ effectiveDelay delay = 1)
  \/ (1 <= delay <= TIMEOUT_MAX /\ effectiveDelay delay = delay)
  \/ (TIMEOUT_MAX < delay /\ effectiveDelay delay = 1).
Proof.
  unfold effectiveDelay.
  destruct (delay <? 1) eqn:E1; [apply Z.ltb_lt in E1; auto|].
  apply Z.ltb_ge in E1.
  destruct (TIMEOUT_MAX <? delay) eqn:E2; simpl.
  - apply Z.ltb_lt in E2. auto.
  - apply Z.ltb_ge in E2. right. left. auto.
Qed.

Lemma nextQuestion_arms s now s' outs :
  nextQuestion s now = (s', ReplyOk, outs) ->
  exists q tm,
    currentQuestion s' = Some q
    /\ deadline s' = Some (now + durationMs q)
    /\ timer s' = Some tm
    /\ armedAt tm = now
    /\ delayMs tm = durationMs q + 50
    /\ durationMs q < delayMs tm
    /\ (delayMs tm <= TIMEOUT_MAX ->
        ~ timerMayFire tm (now + durationMs q)).
Proof.
  unfold nextQuestion.
  destruct (currentQuestion
              (withQuestionIdx (questionIdx (withTimer None s) + 1)
                               (withTimer None s))) as [q|] eqn:Hq;
    [|discriminate].
  intros [= <- _]. exists q. eexists.
  split; [exact Hq|]. split; [reflexivity|]. split; [reflexivity|].
  split; [reflexivity|]. split; [reflexivity|].
  unfold timerMayFire. cbn [armedAt delayMs]. split; [lia|].
  intros Hmax.
  destruct (effectiveDelay_cases (durationMs q + 50))
    as [[H1 ->]|[[H1 ->]|[H1 _]]]; lia.
Qed.

(** C6, as the servers have it.  In the streak server every pending
    auto-advance timer was armed for the current question of duration [d]
    with the delay [d + 50 > d]; when that delay does not exceed
    [TIMEOUT_MAX], the largest delay [setTimeout] honours, the timer can
    fire only strictly after the deadline, so at no time up to the deadline
    is its callback run, and the deadline check accepts every time from the
    clock to the deadline.  The earlier [server.js] arms the timer with the
    delay [d] itself: within the same bound it fires no earlier than the
    deadline, and for [1 <= d] it may fire at the deadline. *)
Theorem timer_fires_after_deadline :
  (forall (w : World) (pin : string) (s : Session) (tm : Timer),
     reachable w ->
     JsMap.get pin (SESSIONS w) = Some s ->
     timer s = Some tm ->
     exists q dl,
       currentQuestion s = Some q
       /\ deadline s = Some dl
       /\ dl = armedAt tm + durationMs q
       /\ delayMs tm = durationMs q + 50
       /\ durationMs q < delayMs tm
       /\ (delayMs tm <= TIMEOUT_MAX ->
           (forall now, timerMayFire tm now -> dl < now)
           /\ (forall now, now <= dl -> on_timer (SESSIONS w) pin now = None))
       /\ (forall now, clock w <= now -> now <= dl ->
                       pastDeadline s now = false))
  /\ (forall (s s' : Session) (now : Z) (outs : list Output),
        ServerJs.nextQuestion s now = (s', ReplyOk, outs) ->
        exists q tm,
          currentQuestion s' = Some q
          /\ deadline s' = Some (now + durationMs q)
          /\ timer s' = Some tm
          /\ armedAt tm = now
          /\ delayMs tm = durationMs q
          /\ (delayMs tm <= TIMEOUT_MAX ->
              forall t, timerMayFire tm t -> now + durationMs q <= t)
          /\ (1 <= delayMs tm <= TIMEOUT_MAX ->
              timerMayFire tm (now + durationMs q))).
Proof.
  split.
  - intros w pin s tm Hr Hs Htm.
    pose proof (reachable_sessionOk w pin s Hr Hs) as Hok.
    destruct (ok_timer _ _ _ Hok tm Htm) as (q & Hq & Hdl & Hdelay & Harm).
    assert (Hfire : delayMs tm <= TIMEOUT_MAX ->
                    forall now, timerMayFire tm now ->
                                armedAt tm + durationMs q < now).
    { intros Hmax now. unfold timerMayFire.
      destruct (effectiveDelay_cases (delayMs tm))
        as [[H1 ->]|[[H1 ->]|[H1 _]]]; lia. }
    exists q, (armedAt tm + durationMs q).
    split; [assumption|]. split; [assumption|]. split; [reflexivity|].
    split; [assumption|]. split; [lia|]. split; [|].
    + intros Hmax. split; [now apply Hfire|].
      intros now Hnow. unfold on_timer. rewrite Hs, Htm.
      destruct (timerDue tm now) eqn:E; [|reflexivity].
      unfold timerDue in E. apply Z.leb_le in E.
      specialize (Hfire Hmax now E). lia.
    + intros now Hclk Hnow. unfold pastDeadline. rewrite Hdl.
      assert (Hne : durationMs q <> 0).
      { pose proof (ok_durations _ _ _ Hok) as Hall.
        rewrite Forall_forall in Hall. apply Hall.
        now apply currentQuestion_In. }
      destruct (armedAt tm + durationMs q) as [|dl|dl] eqn:E; simpl.
      * lia.
      * rewrite Z.gtb_ltb. apply Z.ltb_ge. lia.
      * lia.
  - intros s s' now outs. unfold ServerJs.nextQuestion.
    destruct (currentQuestion
                (withQuestionIdx (questionIdx (withTimer None s) + 1)
                                 (withTimer None s))) as [q|] eqn:Hq;
      [|discriminate].
    intros [= <- _]. exists q. eexists.
    split; [exact Hq|]. split; [reflexivity|]. split; [reflexivity|].
    split; [reflexivity|]. split; [reflexivity|].
    unfold timerMayFire. cbn [armedAt delayMs]. split.
    + intros Hmax t.
      destruct (effectiveDelay_cases (durationMs q))
        as [[H1 ->]|[[H1 ->]|[H1 _]]]; lia.
    + intros Hrange.
      destruct (effectiveDelay_cases (durationMs q))
        as [[H1 _]|[[H1 ->]|[H1 _]]]; lia.
Qed.

Lemma timer_fires_after_deadline_witness :
  exists s tm,
    JsMap.get "123456" (SESSIONS (worldAfter streakTrace)) = Some s
    /\ timer s = Some tm
    /\ delayMs tm <= TIMEOUT_MAX
    /\ exists q dl,
    currentQuestion s = Some q
    /\ deadline s = Some dl
    /\ dl = armedAt tm + durationMs q
    /\ delayMs tm = durationMs q + 50
    /\ durationMs q < delayMs tm
    /\ (delayMs tm <= TIMEOUT_MAX ->
        (forall now, timerMayFire tm now -> dl < now)
        /\ (forall now, now <= dl ->
              on_timer (SESSIONS (worldAfter streakTrace)) "123456" now
              = None))
    /\ (forall now, clock (worldAfter streakTrace) <= now -> now <= dl ->
          pastDeadline s now = false).
Proof.
  eexists; eexists. split; [evaluated|]. split; [evaluated|].
  split; [vm_compute; discriminate|].
  apply (proj1 timer_fires_after_deadline (worldAfter streakTrace) "123456").
  - apply worldAfter_reachable.
  - evaluated.
  - evaluated.
Defined.

(** C6 as stated fails.  In the streak server a question of 2147483648 ms
    gets a timer whose delay is above [TIMEOUT_MAX]: it is due one
    millisecond after it was armed, long before the deadline, its callback
    ends the session, and an answer sent well before the deadline finds no
    question.  In the earlier [server.js] the delay of a 15000 ms question
    is 15000, not more, and the timer is due at the deadline itself. *)
Lemma timer_of_long_question_fires_early :
  (exists s tm dl,
     JsMap.get "123456" (SESSIONS (worldAfter longQuestionTrace)) = Some s
     /\ timer s = Some tm
     /\ deadline s = Some dl
     /\ dl = 2000 + 2147483648
     /\ delayMs tm = 2147483648 + 50
     /\ timerMayFire tm 2001
     /\ 2001 < dl
     /\ on_timer (SESSIONS (worldAfter longQuestionTrace)) "123456" 2001
        <> None
     /\ run initial (longQuestionTrace
                       ++ [(2001, timer_fires "123456");
                           (3000, submit_answer "p1" "123456" "Hello")])
        <> None
     /\ lastReply (repliesOf
                     (longQuestionTrace
                        ++ [(2001, timer_fires "123456");
                            (3000, submit_answer "p1" "123456" "Hello")]))
        = Some (ReplyFail "no-question"))
  /\ (exists s s' outs tm,
        JsMap.get "123456"
          (SESSIONS (worldAfter (scenarioA "host" "p1" 23456 1000 2000)))
          = Some s
        /\ ServerJs.nextQuestion (withQuestionIdx (-1) s) 2000
           = (s', ReplyOk, outs)
        /\ timer s' = Some tm
        /\ deadline s' = Some 17000
        /\ delayMs tm = 15000
        /\ ~ (15000 < delayMs tm)
        /\ timerMayFire tm 17000).
Proof.
  split.
  - eexists; eexists; eexists.
    split; [evaluated|]. split; [evaluated|]. split; [evaluated|].
    split; [evaluated|]. split; [evaluated|].
    split; [vm_compute; discriminate|]. split; [reflexivity|].
    split; [vm_compute; discriminate|].
    split; [vm_compute; discriminate | evaluated].
  - eexists; eexists; eexists; eexists.
    split; [evaluated|]. split; [evaluated|]. split; [evaluated|].
    split; [evaluated|]. split; [evaluated|].
    split; vm_compute; discriminate.
Qed.

(** ** Running traces *)

Lemma step_at w now e :
  clock w <= now ->
  step w now e =
    match handle (SESSIONS w) now e with
    | None => None
    | Some (reg, outs) => Some ({| SESSIONS := reg; clock := now |}, outs)
    end.
Proof.
  intros H. unfold step.
  destruct (now <? clock w) eqn:E; [|reflexivity].
  apply Z.ltb_lt in E. lia.
Qed.

Lemma get_head {V} k (v : V) rest : JsMap.get k ((k, v) :: rest) = Some v.
Proof. simpl. now rewrite String.eqb_refl. Qed.

Lemma set_head {V} k (v v0 : V) rest :
  JsMap.set k v ((k, v0) :: rest) = (k, v) :: rest.
Proof. simpl. now rewrite String.eqb_refl. Qed.

(** ** Scenario A *)

(** C1, as the server has it: in scenario A the reply to the answer has
    ok = true (it is an answer reply), correct = true, streak 1 and gained
    exactly 1600, the sum of the base 1000, the full time bonus 500 and the
    streak bonus 100 * 1. *)
Theorem scenarioA_gains_1600 (host player : string) (draw created asked : Z) :
  0 <= created <= asked ->
  exists w outs,
    run initial (scenarioA host player draw created asked) = Some (w, outs)
    /\ lastReply outs = Some (ReplyAnswer true 1600 0 "Hello" 1)
    /\ 1600 = BASE_SCORE + timeBonusAt (asked + 15000) 15000 asked + 1 * STREAK_STEP.
Proof.
  intros [H0 H1]. unfold scenarioA. cbn [run].
  set (pin := genPin draw).
  eexists; eexists; split.
  - (* create *)
  rewrite step_at by (simpl; lia).
  change (handle (SESSIONS initial) created
            (session_create host [draw] "session-1"))
    with (Some ([(pin, mkSession "session-1" pin host [] [] (-1) None None)],
                [Cb (ReplyCreated pin "session-1")])).
  clearbody pin. cbv beta iota.
  (* start *)
  rewrite step_at by (simpl; lia).
  cbn [handle SESSIONS]. unfold on_session_start.
  rewrite get_head. cbn [hostSocketId]. rewrite String.eqb_refl. cbn [negb].
  set (q := mkQuestion "question-1" "Annyeong?" ["Hello"; "Bye"] "Hello" 15000).
  change (nextQuestion _ asked)
    with (mkSession "session-1" pin host [] [q] 0 (Some (asked + 15000))
                    (Some (mkTimer asked (15000 + 50))),
          ReplyOk,
          [Emit pin (MsgQuestion "question-1" "Annyeong?" ["Hello"; "Bye"]
                                 (asked + 15000) 0 1)]).
  cbv iota beta. rewrite set_head. cbv beta iota.
  (* join *)
  rewrite step_at by (simpl; lia).
  cbn [handle SESSIONS]. unfold on_join. rewrite get_head.
  cbn [addPlayer players withPlayers s_id s_pin hostSocketId
       questions questionIdx deadline timer p_id name].
  rewrite set_head. cbv beta iota.
  (* answer *)
  rewrite step_at by (simpl; lia).
  cbn [handle SESSIONS]. unfold on_answer. rewrite get_head.
  cbn [players withPlayers]. rewrite get_set_same.
  match goal with
  | |- context [scoreAnswer ?s ?p "Hello" asked] =>
      assert (Hsc : scoreAnswer s p "Hello" asked
                    = (ScoreOk true 1600 None "Hello" 1,
                       mkPlayer (p_id p) (socketId p) (name p) 1600
                         (Some (mkLastAnswer "question-1" true 1600 500 100 0))
                         1))
  end.
  { match goal with
    | |- scoreAnswer ?s ?p _ _ = _ =>
        pose proof (scoreAnswer_correct s p asked q eq_refl eq_refl) as Hsc
    end.
    cbn [answer q orElse deadline withPlayers durationMs streak score
         q_id p_id socketId name] in Hsc.
    rewrite (timeBonusAt_full asked 15000) in Hsc by lia.
    apply Hsc. unfold pastDeadline. cbn [deadline withPlayers].
    destruct (asked + 15000) eqn:E; simpl; lia. }
  rewrite Hsc. cbv beta iota. reflexivity.
  - split; [reflexivity|].
    rewrite (timeBonusAt_full asked 15000) by lia. reflexivity.
Qed.

Lemma scenarioA_gains_1600_witness :
  0 <= 1000 <= 2000
  /\ exists w outs,
       run initial (scenarioA "host" "p1" 23456 1000 2000) = Some (w, outs)
       /\ lastReply outs = Some (ReplyAnswer true 1600 0 "Hello" 1)
       /\ 1600 = BASE_SCORE + timeBonusAt (2000 + 15000) 15000 2000
                 + 1 * STREAK_STEP.
Proof.
  split; [lia|].
  apply (scenarioA_gains_1600 "host" "p1" 23456 1000 2000). lia.
Defined.

(** C1 as stated fails: the gain of scenario A is 1600, which is 1500 plus
    the streak bonus of the first correct answer, and not 1500. *)
Lemma scenarioA_gained_not_1500 :
  lastReply (repliesOf (scenarioA "host" "p1" 23456 1000 2000))
    = Some (ReplyAnswer true 1600 0 "Hello" 1)
  /\ lastReply (repliesOf (scenarioA "host" "p1" 23456 1000 2000))
    <> Some (ReplyAnswer true 1500 0 "Hello" 1)
  /\ 1600 - 1500 = 1 * STREAK_STEP.
Proof.
  assert (H : lastReply (repliesOf (scenarioA "host" "p1" 23456 1000 2000))
              = Some (ReplyAnswer true 1600 0 "Hello" 1)) by evaluated.
  split; [exact H|]. split; [|reflexivity].
  rewrite H. discriminate.
Qed.

(** ** Unknown codes stay unknown

    A code under which no session is registered stays so through every
    event but a create-session whose draw is that very code. *)

Lemma notin_keys_get {V : Type} (k : string) (m : JsMap.t V) :
  ~ In k (JsMap.keys m) -> JsMap.get k m = None.
Proof.
  intros Hni. destruct (JsMap.get k m) as [v|] eqn:E; [|reflexivity].
  exfalso. apply Hni. apply get_In in E.
  change k with (fst (k, v)). now apply in_map.
Qed.

Lemma get_set_unknown (reg : Registry) (pin pin0 : string) (s s0 : Session) :
  JsMap.get pin reg = None ->
  JsMap.get pin0 reg = Some s0 ->
  JsMap.get pin (JsMap.set pin0 s reg) = None.
Proof.
  intros Hnone Hsome. rewrite get_set_other; [assumption|].
  intros ->. congruence.
Qed.

Lemma handle_keeps_unknown reg now e reg' outs pin :
  JsMap.get pin reg = None ->
  handle reg now e = Some (reg', outs) ->
  (forall socket draws uuid,
     e = session_create socket draws uuid -> pickPin reg draws <> Some pin) ->
  JsMap.get pin reg' = None.
Proof.
  intros Hnone Hh Hcreate. destruct e; simpl in Hh.
  - unfold on_session_create, createSession in Hh.
    specialize (Hcreate socket draws uuid eq_refl).
    destruct (pickPin reg draws) as [pin0|]; [|discriminate].
    injection Hh as <- _. rewrite get_set_other; [assumption|].
    intros ->. now apply Hcreate.
  - injection Hh as Hh. unfold on_session_start in Hh.
    destruct (JsMap.get pin0 reg) as [s|] eqn:Hs;
      [|now injection Hh as <- _].
    destruct (negb (String.eqb (hostSocketId s) socket));
      [now injection Hh as <- _|].
    destruct (nextQuestion _ now) as [[s3 r] o].
    injection Hh as <- _. eapply get_set_unknown; eassumption.
  - injection Hh as Hh. unfold on_question_next in Hh.
    destruct (JsMap.get pin0 reg) as [s|] eqn:Hs;
      [|now injection Hh as <- _].
    destruct (negb (String.eqb (hostSocketId s) socket));
      [now injection Hh as <- _|].
    destruct (nextQuestion s now) as [[s3 r] o].
    injection Hh as <- _. eapply get_set_unknown; eassumption.
  - injection Hh as Hh. unfold on_join in Hh.
    destruct (JsMap.get pin0 reg) as [s|] eqn:Hs;
      [|now injection Hh as <- _].
    simpl in Hh. injection Hh as <- _. eapply get_set_unknown; eassumption.
  - injection Hh as Hh. unfold on_answer in Hh.
    destruct (JsMap.get pin0 reg) as [s|] eqn:Hs;
      [|now injection Hh as <- _].
    destruct (JsMap.get socket (players s)) as [p|];
      [|now injection Hh as <- _].
    destruct (scoreAnswer s p answer0 now) as [[r|c g pen cr st] p'];
      [now injection Hh as <- _|].
    injection Hh as <- _. eapply get_set_unknown; eassumption.
  - injection Hh as Hh.
    pose proof (disconnect_keys reg socket pin) as Hk. rewrite Hh in Hk.
    apply notin_keys_get. intros Hin. simpl in Hk.
    now apply (get_None_keys pin reg Hnone), Hk.
  - unfold on_timer in Hh.
    destruct (JsMap.get pin0 reg) as [s|] eqn:Hs; [|discriminate].
    destruct (timer s) as [t|]; [|discriminate].
    destruct (timerDue t now); [|discriminate].
    destruct (nextQuestion s now) as [[s3 r] o].
    injection Hh as <- _. eapply get_set_unknown; eassumption.
Qed.

(** ** Disconnection *)

(** C7, as the server has it: when the host of the session registered under
    [pin] disconnects, session-end with reason host-left is broadcast to the
    session's room and the session leaves the registry, after which join and
    submit-answer with that code are answered not-found, start-session and
    advance-question are answered not-host, no timer of it is left, and the
    code stays unknown through every event but a create-session that draws
    it again; when a participant who is not the host disconnects, the session stays, with
    that participant alone removed from its players, and its refreshed
    leaderboard is broadcast. *)
Theorem disconnect_ends_or_leaves
    (w : World) (socket pin : string) (s : Session) :
  reachable w ->
  JsMap.get pin (SESSIONS w) = Some s ->
  let reg' := fst (on_disconnect (SESSIONS w) socket) in
  let outs := snd (on_disconnect (SESSIONS w) socket) in
  (hostSocketId s = socket ->
     In (Emit pin (MsgSessionEnd "host-left")) outs
     /\ JsMap.get pin reg' = None
     /\ (forall sock nm uuid,
           on_join reg' sock pin nm uuid
             = (reg', [Cb (ReplyFail "not-found")]))
     /\ (forall sock a now,
           on_answer reg' sock pin a now
             = (reg', [Cb (ReplyFail "not-found")]))
     /\ (forall sock qs uuid now,
           on_session_start reg' sock pin qs uuid now
             = (reg', [Cb (ReplyFail "not-host")]))
     /\ (forall sock now,
           on_question_next reg' sock pin now
             = (reg', [Cb (ReplyFail "not-host")]))
     /\ (forall now, on_timer reg' pin now = None)
     /\ (forall now e reg'' outs',
           handle reg' now e = Some (reg'', outs') ->
           (forall sock draws uuid,
              e = session_create sock draws uuid ->
              pickPin reg' draws <> Some pin) ->
           JsMap.get pin reg'' = None))
  /\ (hostSocketId s <> socket ->
      JsMap.has socket (players s) = true ->
      let s' := withPlayers (JsMap.delete socket (players s)) s in
      JsMap.get pin reg' = Some s'
      /\ JsMap.get socket (players s') = None
      /\ (forall other, socket <> other ->
            JsMap.get other (players s') = JsMap.get other (players s))
      /\ In (emitLeaderboard s') outs).
Proof.
  intros Hr Hs reg' outs.
  destruct (reachable_worldOk w Hr) as [_ [Hnd _]].
  pose proof (ok_pin _ _ _ (reachable_sessionOk w pin s Hr Hs)) as Hpin.
  split.
  - intros Hhost.
    destruct (disconnect_host (SESSIONS w) socket pin s Hnd Hs Hhost)
      as [Hnone Hend].
    rewrite Hpin in Hend. fold reg' in Hnone. fold outs in Hend.
    split; [assumption|]. split; [assumption|].
    split; [intros; now apply unknown_pin_join|].
    split; [intros; now apply unknown_pin_answer|].
    split; [intros; now apply unknown_pin_start|].
    split; [intros; now apply unknown_pin_next|].
    split; [intros now; unfold on_timer; now rewrite Hnone|].
    intros now e reg'' outs' Hh Hcreate.
    now apply (handle_keeps_unknown reg' now e reg'' outs' pin).
  - intros Hhost Hhas s'.
    destruct (disconnect_guest (SESSIONS w) socket pin s Hnd Hs Hhost)
      as [Hget Hlb].
    rewrite Hhas in Hget, Hlb. fold reg' in Hget. fold outs in Hlb.
    split; [assumption|].
    split; [apply get_delete_same|].
    split; [intros other Hne; now apply get_delete_other|].
    now apply Hlb.
Qed.

Lemma disconnect_ends_or_leaves_witness :
  exists s,
    JsMap.get "123456" (SESSIONS (worldAfter streakTrace)) = Some s
    /\ hostSocketId s <> "p1"
    /\ JsMap.has "p1" (players s) = true
    /\ JsMap.get "123456"
         (fst (on_disconnect (SESSIONS (worldAfter streakTrace)) "p1"))
       = Some (withPlayers (JsMap.delete "p1" (players s)) s)
    /\ In (Emit "123456" (MsgSessionEnd "host-left"))
          (snd (on_disconnect (SESSIONS (worldAfter streakTrace)) "host")).
Proof.
  eexists. split; [evaluated|].
  match goal with
  | |- hostSocketId ?s <> _ /\ _ =>
      pose proof (disconnect_ends_or_leaves
                    (worldAfter streakTrace) "p1" "123456" s
                    (worldAfter_reachable streakTrace) ltac:(evaluated))
        as [_ Hguest];
      pose proof (disconnect_ends_or_leaves
                    (worldAfter streakTrace) "host" "123456" s
                    (worldAfter_reachable streakTrace) ltac:(evaluated))
        as [Hhost _];
      assert (H1 : hostSocketId s <> "p1") by (vm_compute; discriminate);
      assert (H2 : JsMap.has "p1" (players s) = true) by evaluated;
      assert (H3 : hostSocketId s = "host") by evaluated
  end.
  split; [exact H1|]. split; [exact H2|].
  split.
  - exact (proj1 (Hguest H1 H2)).
  - exact (proj1 (Hhost H3)).
Defined.

(** C7 as stated fails: after the host has left, advance-question with the
    session's code is answered not-host, not not-found. *)
Lemma advance_after_host_left_replies_not_host :
  lastReply (repliesOf hostLeftTrace) = Some (ReplyFail "not-host")
  /\ lastReply (repliesOf hostLeftTrace) <> Some (ReplyFail "not-found")
  /\ JsMap.get "123456" (SESSIONS (worldAfter hostLeftTrace)) = None.
Proof.
  assert (H : lastReply (repliesOf hostLeftTrace)
              = Some (ReplyFail "not-host")) by evaluated.
  split; [exact H|]. split; [|evaluated].
  rewrite H. discriminate.
Qed.

(** ** Joining again *)

(** C10: when a connection that already is a participant of a session joins
    it again, the player stored for it becomes a fresh record (the new
    [uuid()] as id, score 0, streak 0, no lastAnswer), whatever the old one
    had; the players hold exactly one entry for the connection, no entry is
    added and the other participants are as before. *)
Theorem rejoin_replaces_record
    (w : World) (socket pin : string) (nm : option CodeUnits) (uuid : string)
    (s : Session) (old : Player) :
  reachable w ->
  JsMap.get pin (SESSIONS w) = Some s ->
  JsMap.get socket (players s) = Some old ->
  exists s' fresh,
    fst (on_join (SESSIONS w) socket pin nm uuid)
      = JsMap.set pin s' (SESSIONS w)
    /\ lastReply (snd (on_join (SESSIONS w) socket pin nm uuid))
       = Some (ReplyJoined uuid pin)
    /\ JsMap.get pin (JsMap.set pin s' (SESSIONS w)) = Some s'
    /\ JsMap.get socket (players s') = Some fresh
    /\ p_id fresh = uuid
    /\ score fresh = 0
    /\ streak fresh = 0
    /\ lastAnswer fresh = None
    /\ JsMap.count socket (players s') = 1%nat
    /\ JsMap.keys (players s') = JsMap.keys (players s)
    /\ (forall other, socket <> other ->
          JsMap.get other (players s') = JsMap.get other (players s)).
Proof.
  intros Hr Hs Hold.
  pose proof (ok_keys _ _ _ (reachable_sessionOk w pin s Hr Hs)) as Hnd.
  unfold on_join, addPlayer. rewrite Hs. cbn [fst snd].
  eexists (withPlayers _ s), (mkPlayer _ _ _ _ _ _).
  split; [reflexivity|]. split; [reflexivity|].
  split; [apply get_set_same|].
  cbn [players withPlayers].
  split; [apply get_set_same|].
  cbn [p_id score streak lastAnswer].
  do 4 (split; [reflexivity|]).
  split; [now apply count_set|].
  split.
  - apply keys_set_in. apply get_In in Hold.
    change socket with (fst (socket, old)). now apply in_map.
  - intros other Hne. now apply get_set_other.
Qed.

Lemma rejoin_replaces_record_witness :
  exists s old s' fresh,
    JsMap.get "123456" (SESSIONS (worldAfter streakTrace)) = Some s
    /\ JsMap.get "p1" (players s) = Some old
    /\ score old = 3168
    /\ JsMap.get "p1" (players s') = Some fresh
    /\ score fresh = 0
    /\ JsMap.count "p1" (players s') = 1%nat.
Proof.
  eexists; eexists.
  destruct (rejoin_replaces_record (worldAfter streakTrace) "p1" "123456"
              (Some (utf16 "P1")) "player-2" _ _
              (worldAfter_reachable streakTrace)
              ltac:(evaluated) ltac:(evaluated))
    as (s' & fresh & _ & _ & _ & Hget & _ & Hscore & _ & _ & Hcount & _).
  exists s', fresh.
  split; [evaluated|]. split; [evaluated|]. split; [evaluated|].
  split; [exact Hget|]. split; [exact Hscore | exact Hcount].
Defined.

(** ** Instances on the scenario B setting *)

Lemma wrong_answer_forfeits_streak_witness :
  exists s p q,
    JsMap.get "123456" (SESSIONS (worldAfter streakTrace)) = Some s
    /\ JsMap.get "p1" (players s) = Some p
    /\ currentQuestion s = Some q
    /\ score p = 3168
    /\ exists s' p',
         on_answer (SESSIONS (worldAfter streakTrace)) "p1" "123456" "Bye"
                   20000
           = (JsMap.set "123456" s' (SESSIONS (worldAfter streakTrace)),
              [Cb (ReplyAnswer false 0 (100 * 2) (answer q) 0);
               emitLeaderboard s'])
         /\ JsMap.get "123456"
              (JsMap.set "123456" s' (SESSIONS (worldAfter streakTrace)))
            = Some s'
         /\ JsMap.get "p1" (players s') = Some p'
         /\ score p' = Z.max 0 (score p - 100 * 2)
         /\ streak p' = 0
         /\ lastAnswer p'
            = Some {| qid := q_id q; la_correct := false; la_gained := 0;
                      la_timeBonus := 0; la_streakBonus := 0;
                      la_penalty := 100 * 2 |}.
Proof.
  eexists; eexists; eexists.
  split; [evaluated|]. split; [evaluated|]. split; [evaluated|].
  split; [evaluated|].
  eapply (wrong_answer_forfeits_streak
            (SESSIONS (worldAfter streakTrace)) "p1" "123456" "Bye" 20000 2).
  - evaluated.
  - evaluated.
  - evaluated.
  - evaluated.
  - vm_compute; discriminate.
  - evaluated.
Defined.


Lemma not_host_rejected_witness :
  exists s,
    JsMap.get "123456" (SESSIONS (worldAfter streakTrace)) = Some s
    /\ hostSocketId s <> "p1"
    /\ on_session_start (SESSIONS (worldAfter streakTrace)) "p1" "123456"
                        (Some [helloQuestion]) (fun _ => "question-1") 20000
       = (SESSIONS (worldAfter streakTrace), [Cb (ReplyFail "not-host")])
    /\ on_question_next (SESSIONS (worldAfter streakTrace)) "p1" "123456"
                        20000
       = (SESSIONS (worldAfter streakTrace), [Cb (ReplyFail "not-host")]).
Proof.
  eexists. split; [evaluated|]. split; [vm_compute; discriminate|].
  eapply (not_host_rejected (SESSIONS (worldAfter streakTrace)) "p1" "123456").
  - evaluated.
  - vm_compute; discriminate.
Defined.

(** ** The earlier [server.js] *)

(** X23: the timer of the earlier server is armed with the bare duration,
    so for a positive duration it may fire at the very deadline, a time at
    which the deadline check still accepts answers. *)
Lemma legacy_nextQuestion_arms s now s' outs :
  ServerJs.nextQuestion s now = (s', ReplyOk, outs) ->
  exists q tm,
    currentQuestion s' = Some q
    /\ deadline s' = Some (now + durationMs q)
    /\ timer s' = Some tm
    /\ delayMs tm = durationMs q
    /\ (0 < durationMs q -> timerMayFire tm (now + durationMs q)).
Proof.
  unfold ServerJs.nextQuestion.
  destruct (currentQuestion
              (withQuestionIdx (questionIdx (withTimer None s) + 1)
                               (withTimer None s))) as [q|] eqn:Hq;
    [|discriminate].
  intros [= <- _]. exists q. eexists.
  split; [exact Hq|]. split; [reflexivity|]. split; [reflexivity|].
  split; [reflexivity|]. unfold timerMayFire. cbn [armedAt delayMs].
  intros Hpos.
  destruct (effectiveDelay_cases (durationMs q))
    as [[H1 _]|[[H1 ->]|[H1 ->]]]; lia.
Qed.

(** Its correct answers gain the base and the time bonus only: 1500 for an
    immediate answer to a 15000 ms question. *)
Lemma legacy_scoreAnswer_correct s p now q :
  currentQuestion s = Some q ->
  ServerJs.answeredThis p q = false ->
  pastDeadline s now = false ->
  fst (ServerJs.scoreAnswer s p (answer q) now)
    = ServerJs.ScoreOk true
        (1000 + timeBonusAt (orElse (deadline s) 0) (durationMs q) now)
        (answer q).
Proof.
  intros Hq Ha Hd. unfold ServerJs.scoreAnswer.
  now rewrite Hq, Ha, Hd, String.eqb_refl.
Qed.

(** * Further properties of the code *)

(** ** The leaderboard sort *)

Lemma insertRow_perm r rows : Permutation (r :: rows) (insertRow r rows).
Proof.
  induction rows as [|h rest IH]; simpl; [reflexivity|].
  destruct (r_score r <? r_score h); [|reflexivity].
  rewrite perm_swap. now constructor.
Qed.

Lemma sortRows_perm rows : Permutation rows (sortRows rows).
Proof.
  induction rows as [|r rest IH]; simpl; [constructor|].
  rewrite <- insertRow_perm. now constructor.
Qed.

Lemma insertRow_sorted r rows :
  StronglySorted rankedBefore rows ->
  StronglySorted rankedBefore (insertRow r rows).
Proof.
  induction 1 as [|h rest Hs IH Hh]; simpl.
  - repeat constructor.
  - destruct (r_score r <? r_score h) eqn:E.
    + apply Z.ltb_lt in E. constructor; [assumption|].
      rewrite <- insertRow_perm. constructor; [|assumption].
      unfold rankedBefore. lia.
    + apply Z.ltb_ge in E. constructor; [now constructor|].
      constructor; [exact E|].
      eapply Forall_impl; [|exact Hh].
      unfold rankedBefore. intros x Hx. lia.
Qed.

Lemma sortRows_sorted rows : StronglySorted rankedBefore (sortRows rows).
Proof.
  induction rows as [|r rest IH]; simpl; [constructor|].
  now apply insertRow_sorted.
Qed.


(** X1: the rows of a leaderboard broadcast are the participants' rows, each
    exactly once, in descending order of score. *)
Theorem leaderboard_sorted_permutation (s : Session) :
  exists rows,
    emitLeaderboard s = Emit (s_pin s) (MsgLeaderboard rows)
    /\ StronglySorted rankedBefore rows
    /\ Permutation (map rowOf (JsMap.values (players s))) rows
    /\ List.length rows = List.length (players s).
Proof.
  eexists. split; [reflexivity|].
  split; [apply sortRows_sorted|].
  split; [apply sortRows_perm|].
  rewrite <- (Permutation_length (sortRows_perm _)).
  unfold JsMap.values. now rewrite !length_map.
Qed.





(** ** Codes and the registry *)

Lemma genPin_digits_nonnil (n : N) : N.to_uint n <> Decimal.Nil.
Proof.
  destruct n as [|p]; simpl; [discriminate|].
  apply DecimalPos.Unsigned.to_uint_nonnil.
Qed.

Lemma genPin_inj (r1 r2 : Z) :
  0 <= r1 -> 0 <= r2 -> genPin r1 = genPin r2 -> r1 = r2.
Proof.
  intros H1 H2 Heq. unfold genPin in Heq.
  assert (Hd : N.to_uint (Z.to_N (100000 + r1))
               = N.to_uint (Z.to_N (100000 + r2))).
  { pose proof (NilZero.usu _ (genPin_digits_nonnil (Z.to_N (100000 + r1))))
      as E1.
    pose proof (NilZero.usu _ (genPin_digits_nonnil (Z.to_N (100000 + r2))))
      as E2.
    rewrite Heq in E1. congruence. }
  apply Unsigned.to_uint_inj in Hd. apply Z2N.inj in Hd; lia.
Qed.

(** X3: different draws of the random number give different codes, and
    equal codes come from equal draws. *)
Theorem genPin_injective (r1 r2 : Z) :
  0 <= r1 -> 0 <= r2 ->
  (r1 <> r2 -> genPin r1 <> genPin r2)
  /\ (genPin r1 = genPin r2 -> r1 = r2).
Proof.
  intros H1 H2. split.
  - intros Hne Heq. apply Hne. now apply genPin_inj.
  - now apply genPin_inj.
Qed.

Lemma genPin_injective_witness :
  (0 <= 7 /\ 0 <= 8 /\ 7 <> 8)
  /\ genPin 7 = "100007" /\ genPin 8 = "100008"
  /\ genPin 7 <> genPin 8.
Proof.
  split; [lia|]. split; [evaluated|]. split; [evaluated|].
  apply (proj1 (genPin_injective 7 8 ltac:(lia) ltac:(lia))). lia.
Defined.

Lemma pickPin_free reg draws pin :
  pickPin reg draws = Some pin ->
  JsMap.get pin reg = None /\ In pin (map genPin draws).
Proof.
  induction draws as [|r rest IH]; simpl; [discriminate|].
  unfold JsMap.has at 1.
  destruct (JsMap.get (genPin r) reg) eqn:E.
  - intros H. destruct (IH H). auto.
  - intros [= <-]. auto.
Qed.

(** X4: a created session gets a code that was free, one of the drawn ones;
    it is registered under it in its initial state (caller as host, no
    players, no questions, cursor -1, no deadline, no timer) and every
    session registered before is still found under its code, unchanged. *)
Theorem createSession_fresh
    (reg reg' : Registry) (host uuid : string) (draws : list Z)
    (s : Session) :
  createSession reg host draws uuid = Some (s, reg') ->
  JsMap.get (s_pin s) reg = None
  /\ In (s_pin s) (map genPin draws)
  /\ JsMap.get (s_pin s) reg' = Some s
  /\ (forall pin, pin <> s_pin s -> JsMap.get pin reg' = JsMap.get pin reg)
  /\ s = {| s_id := uuid; s_pin := s_pin s; hostSocketId := host;
            players := []; questions := []; questionIdx := -1;
            deadline := None; timer := None |}
  /\ currentQuestion s = None.
Proof.
  unfold createSession.
  destruct (pickPin reg draws) as [pin|] eqn:Hpick; [|discriminate].
  intros [= <- <-]. simpl.
  destruct (pickPin_free reg draws pin Hpick) as [Hfree Hin].
  split; [assumption|]. split; [assumption|].
  split; [apply get_set_same|].
  split; [|split; reflexivity].
  intros pin' Hne. apply get_set_other. congruence.
Qed.

Lemma createSession_fresh_witness :
  exists s reg',
    createSession (SESSIONS (worldAfter streakTrace)) "host2" [23456; 7]
                  "session-2" = Some (s, reg')
    /\ s_pin s = "100007"
    /\ JsMap.get (s_pin s) (SESSIONS (worldAfter streakTrace)) = None
    /\ JsMap.get (s_pin s) reg' = Some s.
Proof.
  eexists; eexists. split; [evaluated|]. split; [evaluated|].
  match goal with
  | |- JsMap.get (s_pin ?s) ?reg = None /\ JsMap.get _ ?reg' = _ =>
      pose proof (createSession_fresh reg reg' "host2" "session-2"
                    [23456; 7] s ltac:(evaluated))
        as (H1 & _ & H3 & _)
  end.
  split; assumption.
Defined.

(** X5: the loop that draws the code skips the draws that collide with a
    registered session and stops at the first free one, so creation succeeds
    as soon as one draw is free. *)
Theorem createSession_first_free_draw
    (reg : Registry) (host uuid : string) (taken rest : list Z) (r : Z) :
  Forall (fun r' => JsMap.has (genPin r') reg = true) taken ->
  JsMap.has (genPin r) reg = false ->
  exists s,
    createSession reg host (taken ++ r :: rest) uuid
      = Some (s, JsMap.set (genPin r) s reg)
    /\ s_pin s = genPin r
    /\ on_session_create reg host (taken ++ r :: rest) uuid
       = Some (JsMap.set (genPin r) s reg,
               [Cb (ReplyCreated (genPin r) uuid)]).
Proof.
  intros Htaken Hfree.
  assert (Hpick : pickPin reg (taken ++ r :: rest) = Some (genPin r)).
  { induction Htaken as [|r' taken' Hr' _ IH]; simpl.
    - now rewrite Hfree.
    - now rewrite Hr'. }
  unfold on_session_create, createSession. rewrite Hpick.
  eexists. split; [reflexivity|]. split; reflexivity.
Qed.

Lemma createSession_first_free_draw_witness :
  exists s,
    createSession (SESSIONS (worldAfter streakTrace)) "host2"
                  ([23456] ++ 7 :: [8]) "session-2"
      = Some (s, JsMap.set (genPin 7) s (SESSIONS (worldAfter streakTrace)))
    /\ s_pin s = genPin 7
    /\ on_session_create (SESSIONS (worldAfter streakTrace)) "host2"
                         ([23456] ++ 7 :: [8]) "session-2"
       = Some (JsMap.set (genPin 7) s (SESSIONS (worldAfter streakTrace)),
               [Cb (ReplyCreated (genPin 7) "session-2")]).
Proof.
  apply (createSession_first_free_draw
           (SESSIONS (worldAfter streakTrace)) "host2" "session-2"
           [23456] [8] 7).
  - constructor; [evaluated | constructor].
  - evaluated.
Defined.

Lemma nextQuestion_identity s t :
  s_id (fst (fst (nextQuestion s t))) = s_id s
  /\ s_pin (fst (fst (nextQuestion s t))) = s_pin s
  /\ hostSocketId (fst (fst (nextQuestion s t))) = hostSocketId s.
Proof.
  unfold nextQuestion. destruct (currentQuestion _); repeat split.
Qed.

Lemma set_survives (reg : Registry) (pin pin0 : string) (s s0 v : Session) :
  JsMap.get pin reg = Some s ->
  JsMap.get pin0 reg = Some s0 ->
  s_id v = s_id s0 /\ s_pin v = s_pin s0 /\ hostSocketId v = hostSocketId s0 ->
  exists s',
    JsMap.get pin (JsMap.set pin0 v reg) = Some s'
    /\ s_id s' = s_id s /\ s_pin s' = s_pin s
    /\ hostSocketId s' = hostSocketId s.
Proof.
  intros Hs Hs0 Hv. destruct (string_dec pin0 pin) as [->|Hne].
  - assert (s0 = s) by congruence. subst s0.
    exists v. split; [apply get_set_same | exact Hv].
  - exists s. rewrite get_set_other by assumption. auto.
Qed.

(** X6: a registered session is never replaced and is removed by one event
    only, the disconnect of its host: after every other event, a
    session:create whose first draws collide with its code included, the
    same session (same id, code and host) is registered under its code. *)
Theorem session_survives_until_host_leaves
    (w w' : World) (now : Z) (e : Event) (outs : list Output)
    (pin : string) (s : Session) :
  reachable w ->
  step w now e = Some (w', outs) ->
  JsMap.get pin (SESSIONS w) = Some s ->
  e = disconnect (hostSocketId s)
  \/ exists s',
       JsMap.get pin (SESSIONS w') = Some s'
       /\ s_id s' = s_id s /\ s_pin s' = s_pin s
       /\ hostSocketId s' = hostSocketId s.
Proof.
  intros Hr Hstep Hs.
  destruct (reachable_worldOk w Hr) as [_ [Hnd _]].
  unfold step in Hstep. destruct (now <? clock w); [discriminate|].
  destruct (handle (SESSIONS w) now e) as [[reg o]|] eqn:Hh; [|discriminate].
  injection Hstep as <- _. cbn [SESSIONS].
  assert (Hsame : reg = SESSIONS w ->
                  exists s', JsMap.get pin reg = Some s'
                             /\ s_id s' = s_id s /\ s_pin s' = s_pin s
                             /\ hostSocketId s' = hostSocketId s).
  { intros ->. exists s. auto. }
  destruct e as [socket draws uuid | socket pin0 qs uuid | socket pin0
                | socket pin0 nm uuid | socket pin0 a | socket | pin0];
    simpl in Hh.
  - right. unfold on_session_create, createSession in Hh.
    destruct (pickPin (SESSIONS w) draws) as [pin0|] eqn:Hpick;
      [|discriminate].
    injection Hh as <- _.
    destruct (pickPin_free _ _ _ Hpick) as [Hfree _].
    exists s. rewrite get_set_other; [auto|]. intros ->. congruence.
  - right. injection Hh as Hh. unfold on_session_start in Hh.
    destruct (JsMap.get pin0 (SESSIONS w)) as [s0|] eqn:Hs0;
      [|injection Hh as <- _; now apply Hsame].
    destruct (negb (String.eqb (hostSocketId s0) socket));
      [injection Hh as <- _; now apply Hsame|].
    match type of Hh with
    | context [nextQuestion ?s2 now] =>
        pose proof (nextQuestion_identity s2 now) as Hid;
        destruct (nextQuestion s2 now) as [[s3 r] o']
    end.
    injection Hh as <- _. now apply (set_survives _ _ _ s s0).
  - right. injection Hh as Hh. unfold on_question_next in Hh.
    destruct (JsMap.get pin0 (SESSIONS w)) as [s0|] eqn:Hs0;
      [|injection Hh as <- _; now apply Hsame].
    destruct (negb (String.eqb (hostSocketId s0) socket));
      [injection Hh as <- _; now apply Hsame|].
    pose proof (nextQuestion_identity s0 now) as Hid.
    destruct (nextQuestion s0 now) as [[s3 r] o'].
    injection Hh as <- _. now apply (set_survives _ _ _ s s0).
  - right. injection Hh as Hh. unfold on_join in Hh.
    destruct (JsMap.get pin0 (SESSIONS w)) as [s0|] eqn:Hs0;
      [|injection Hh as <- _; now apply Hsame].
    simpl in Hh. injection Hh as <- _.
    apply (set_survives _ _ _ s s0); auto.
  - right. injection Hh as Hh. unfold on_answer in Hh.
    destruct (JsMap.get pin0 (SESSIONS w)) as [s0|] eqn:Hs0;
      [|injection Hh as <- _; now apply Hsame].
    destruct (JsMap.get socket (players s0)) as [p|];
      [|injection Hh as <- _; now apply Hsame].
    destruct (scoreAnswer s0 p a now) as [[r|c g pen cr st] p'];
      [injection Hh as <- _; now apply Hsame|].
    injection Hh as <- _. apply (set_survives _ _ _ s s0); auto.
  - injection Hh as Hh.
    destruct (string_dec (hostSocketId s) socket) as [<-|Hhost];
      [now left | right].
    destruct (disconnect_guest (SESSIONS w) socket pin s Hnd Hs Hhost)
      as [Hg _].
    rewrite Hh in Hg. cbn [fst] in Hg. eexists. split; [exact Hg|].
    now destruct (JsMap.has socket (players s)).
  - right. unfold on_timer in Hh.
    destruct (JsMap.get pin0 (SESSIONS w)) as [s0|] eqn:Hs0; [|discriminate].
    destruct (timer s0) as [t|]; [|discriminate].
    destruct (timerDue t now); [|discriminate].
    pose proof (nextQuestion_identity s0 now) as Hid.
    destruct (nextQuestion s0 now) as [[s3 r] o'].
    injection Hh as <- _. now apply (set_survives _ _ _ s s0).
Qed.

Lemma session_survives_until_host_leaves_witness :
  exists w' outs s s',
    step (worldAfter streakTrace) 20000
         (session_create "host2" [23456; 7] "session-2") = Some (w', outs)
    /\ JsMap.get "123456" (SESSIONS (worldAfter streakTrace)) = Some s
    /\ JsMap.get "123456" (SESSIONS w') = Some s'
    /\ JsMap.keys (SESSIONS w') = ["123456"; "100007"]
    /\ s_id s' = s_id s /\ s_pin s' = s_pin s
    /\ hostSocketId s' = hostSocketId s.
Proof.
  eexists; eexists; eexists.
  match goal with
  | |- exists s', ?st = Some (?w', ?outs) /\ JsMap.get _ ?reg = Some ?s /\ _ =>
      assert (Hstep : st = Some (w', outs)) by evaluated;
      assert (Hs : JsMap.get "123456" reg = Some s) by evaluated;
      destruct (session_survives_until_host_leaves
                  (worldAfter streakTrace) w' 20000 _ outs "123456" s
                  (worldAfter_reachable streakTrace) Hstep Hs)
        as [Hd | (s' & Hget & Hid)]; [discriminate|]
  end.
  exists s'. split; [exact Hstep|]. split; [exact Hs|].
  split; [exact Hget|]. split; [evaluated | exact Hid].
Defined.

(** ** Participants' names *)

(** X7: the name stored for a participant has at most 40 UTF-16 code
    units; it is "Guest" when no name or the empty name is given, otherwise
    the first 40 code units of the given name, which is the given name
    itself when that has at most 40 of them. *)
Theorem addPlayer_name
    (s : Session) (socket : string) (nm : option CodeUnits) (uuid : string) :
  let p := fst (addPlayer s socket nm uuid) in
  (List.length (name p) <= 40)%nat
  /\ (truthyUnits nm = None -> name p = utf16 "Guest")
  /\ (forall given, truthyUnits nm = Some given ->
        name p = firstn 40 given
        /\ ((List.length given <= 40)%nat -> name p = given))
  /\ JsMap.get socket (players (snd (addPlayer s socket nm uuid))) = Some p.
Proof.
  cbv zeta. cbn [addPlayer fst snd name players withPlayers].
  split; [apply firstn_le_length|].
  split; [intros ->; reflexivity|].
  split; [|apply get_set_same].
  intros given ->. cbn [orElse]. split; [reflexivity|].
  apply firstn_all2.
Qed.

Lemma addPlayer_name_witness :
  let long := repeat 54620%N 41 in
  let p := fst (addPlayer
                  {| s_id := "session-1"; s_pin := "123456";
                     hostSocketId := "host"; players := []; questions := [];
                     questionIdx := -1; deadline := None; timer := None |}
                  "p1" (Some long) "player-1") in
  List.length long = 41%nat
  /\ name p = repeat 54620%N 40
  /\ (List.length (name p) <= 40)%nat.
Proof.
  intros long p. split; [reflexivity|]. split; [reflexivity|].
  apply (addPlayer_name
           {| s_id := "session-1"; s_pin := "123456";
              hostSocketId := "host"; players := []; questions := [];
              questionIdx := -1; deadline := None; timer := None |}
           "p1" (Some long) "player-1").
Defined.

(** ** The current question *)

(** X8: there is a current question exactly when the cursor is an index into
    the question list; before the start (-1) and past the end there is
    none, and a current question is the list's element at the cursor. *)
Theorem currentQuestion_bounds (s : Session) :
  (currentQuestion s = None <->
     questionIdx s < 0
     \/ Z.of_nat (List.length (questions s)) <= questionIdx s)
  /\ (forall q, currentQuestion s = Some q ->
        0 <= questionIdx s < Z.of_nat (List.length (questions s))
        /\ nth_error (questions s) (Z.to_nat (questionIdx s)) = Some q).
Proof.
  unfold currentQuestion. split.
  - destruct (questionIdx s <? 0) eqn:E.
    + apply Z.ltb_lt in E. split; auto.
    + apply Z.ltb_ge in E. rewrite nth_error_None. split.
      * intros H. right. lia.
      * intros [H|H]; lia.
  - intros q. destruct (questionIdx s <? 0) eqn:E; [discriminate|].
    apply Z.ltb_ge in E. intros H. split; [|assumption].
    assert (Hn : nth_error (questions s) (Z.to_nat (questionIdx s)) <> None)
      by congruence.
    apply nth_error_Some in Hn. lia.
Qed.

(** ** The questions of a start request *)

(** X9: start keeps the number and order of the host's questions with their
    prompts, options and answers; a duration that is absent or 0 becomes
    15000, any other duration is kept, so no stored duration is 0; an id
    that is given and not empty is kept. *)
Theorem normalizeQuestions_shape
    (raw : list RawQuestion) (uuid : nat -> string) (k : nat) :
  let qs := normalizeQuestions raw uuid k in
  List.length qs = List.length raw
  /\ map prompt qs = map raw_prompt raw
  /\ map options qs = map raw_options raw
  /\ map answer qs = map raw_answer raw
  /\ map durationMs qs
     = map (fun r => match raw_durationMs r with
                     | Some 0 | None => 15000
                     | Some d => d
                     end) raw
  /\ Forall (fun q => durationMs q <> 0) qs
  /\ Forall2 (fun r q => forall i, raw_id r = Some i -> i <> EmptyString ->
                                   q_id q = i) raw qs.
Proof.
  cbv zeta. revert k. induction raw as [|r rest IH]; intros k.
  - simpl. repeat split; constructor.
  - assert (Hd : orElse (truthyNumber (raw_durationMs r)) 15000
                 = match raw_durationMs r with
                   | Some 0 | None => 15000
                   | Some d => d
                   end).
    { destruct (raw_durationMs r) as [[| |]|]; reflexivity. }
    assert (Hne : orElse (truthyNumber (raw_durationMs r)) 15000 <> 0).
    { destruct (raw_durationMs r) as [[| |]|]; simpl; lia. }
    cbn [normalizeQuestions].
    destruct (truthyString (raw_id r)) as [i|] eqn:Hid;
      [destruct (IH k) as (H1 & H2 & H3 & H4 & H5 & H6 & H7)
      |destruct (IH (S k)) as (H1 & H2 & H3 & H4 & H5 & H6 & H7)];
      cbn [map List.length prompt options answer durationMs];
      rewrite H1, H2, H3, H4, H5, Hd;
      (split; [reflexivity|]); (split; [reflexivity|]);
      (split; [reflexivity|]); (split; [reflexivity|]);
      (split; [reflexivity|]);
      (split; [constructor; [simpl; now rewrite <- Hd | assumption]|]);
      (constructor; [|assumption]); cbn [q_id]; intros i' Hi' Hnonempty;
      rewrite Hi' in Hid; destruct i'; simpl in Hid; congruence.
Qed.

(** ** An induction principle for sessions

    A property of sessions that holds of a created session and is kept by
    the update of the players, by an advance and by a start holds of every
    session of every reachable world. *)

Lemma disconnect_Forall (P : Session -> Prop) reg socket :
  (forall s ps, P s -> P (withPlayers ps s)) ->
  Forall (fun e => P (snd e)) reg ->
  Forall (fun e => P (snd e)) (fst (on_disconnect reg socket)).
Proof.
  intros Hps. induction reg as [|[pin s] rest IH]; simpl; [auto|].
  intros Hall. inversion Hall as [|? ? Hs Hrest]; subst. simpl in Hs.
  destruct (on_disconnect rest socket) as [rest' outs]. simpl in IH.
  destruct (String.eqb (hostSocketId s) socket); simpl; [auto|].
  destruct (JsMap.has socket (players s)); simpl; constructor; simpl; auto.
Qed.

Lemma handle_Forall (P : Session -> Prop) reg now e reg' outs :
  (forall uuid pin host,
     P {| s_id := uuid; s_pin := pin; hostSocketId := host;
          players := JsMap.empty; questions := []; questionIdx := -1;
          deadline := None; timer := None |}) ->
  (forall s ps, P s -> P (withPlayers ps s)) ->
  (forall s t, P s -> P (fst (fst (nextQuestion s t)))) ->
  (forall s qs t, P s ->
     P (fst (fst (nextQuestion (withQuestionIdx (-1) (withQuestions qs s))
                               t)))) ->
  Forall (fun e => P (snd e)) reg ->
  handle reg now e = Some (reg', outs) ->
  Forall (fun e => P (snd e)) reg'.
Proof.
  intros Hnew Hps Hnext Hstart Hall Hh.
  destruct e as [socket draws uuid | socket pin qs uuid | socket pin
                | socket pin nm uuid | socket pin a | socket | pin];
    simpl in Hh.
  - unfold on_session_create, createSession in Hh.
    destruct (pickPin reg draws) as [pin|]; [|discriminate].
    injection Hh as <- _. apply Forall_set; [assumption|]. apply Hnew.
  - injection Hh as Hh. unfold on_session_start in Hh.
    destruct (JsMap.get pin reg) as [s|] eqn:Hs;
      [|now injection Hh as <- _].
    destruct (negb (String.eqb (hostSocketId s) socket));
      [now injection Hh as <- _|].
    pose proof (Forall_get _ _ _ _ Hall Hs) as Hp. simpl in Hp.
    pose proof (Hstart s (normalizeQuestions (orElse qs []) uuid 0)
                       now Hp) as Hq.
    destruct (nextQuestion _ now) as [[s3 r] o].
    injection Hh as <- _. now apply Forall_set.
  - injection Hh as Hh. unfold on_question_next in Hh.
    destruct (JsMap.get pin reg) as [s|] eqn:Hs;
      [|now injection Hh as <- _].
    destruct (negb (String.eqb (hostSocketId s) socket));
      [now injection Hh as <- _|].
    pose proof (Forall_get _ _ _ _ Hall Hs) as Hp. simpl in Hp.
    pose proof (Hnext s now Hp) as Hq.
    destruct (nextQuestion s now) as [[s3 r] o].
    injection Hh as <- _. now apply Forall_set.
  - injection Hh as Hh. unfold on_join in Hh.
    destruct (JsMap.get pin reg) as [s|] eqn:Hs;
      [|now injection Hh as <- _].
    pose proof (Forall_get _ _ _ _ Hall Hs) as Hp. simpl in Hp.
    simpl in Hh. injection Hh as <- _.
    apply Forall_set; [assumption|]. now apply Hps.
  - injection Hh as Hh. unfold on_answer in Hh.
    destruct (JsMap.get pin reg) as [s|] eqn:Hs;
      [|now injection Hh as <- _].
    pose proof (Forall_get _ _ _ _ Hall Hs) as Hp. simpl in Hp.
    destruct (JsMap.get socket (players s)) as [p|];
      [|now injection Hh as <- _].
    destruct (scoreAnswer s p a now) as [[r|c g pen cr st] p'];
      [now injection Hh as <- _|].
    injection Hh as <- _. apply Forall_set; [assumption|]. now apply Hps.
  - injection Hh as Hh.
    pose proof (disconnect_Forall P reg socket Hps Hall) as H.
    now rewrite Hh in H.
  - unfold on_timer in Hh.
    destruct (JsMap.get pin reg) as [s|] eqn:Hs; [|discriminate].
    destruct (timer s) as [t|]; [|discriminate].
    destruct (timerDue t now); [|discriminate].
    pose proof (Forall_get _ _ _ _ Hall Hs) as Hp. simpl in Hp.
    pose proof (Hnext s now Hp) as Hq.
    destruct (nextQuestion s now) as [[s3 r] o].
    injection Hh as <- _. now apply Forall_set.
Qed.

Lemma reachable_sessions_ind (P : Session -> Prop) :
  (forall uuid pin host,
     P {| s_id := uuid; s_pin := pin; hostSocketId := host;
          players := JsMap.empty; questions := []; questionIdx := -1;
          deadline := None; timer := None |}) ->
  (forall s ps, P s -> P (withPlayers ps s)) ->
  (forall s t, P s -> P (fst (fst (nextQuestion s t)))) ->
  (forall s qs t, P s ->
     P (fst (fst (nextQuestion (withQuestionIdx (-1) (withQuestions qs s))
                               t)))) ->
  forall w, reachable w ->
  forall pin s, JsMap.get pin (SESSIONS w) = Some s -> P s.
Proof.
  intros Hnew Hps Hnext Hstart w Hr.
  assert (Hall : Forall (fun e => P (snd e)) (SESSIONS w)).
  { induction Hr as [|w now e w' outs _ IH Hstep]; [constructor|].
    unfold step in Hstep. destruct (now <? clock w); [discriminate|].
    destruct (handle (SESSIONS w) now e) as [[reg o]|] eqn:Hh;
      [|discriminate].
    injection Hstep as <- _. simpl.
    eapply (handle_Forall P); eassumption. }
  intros pin s Hs. apply (Forall_get _ _ _ _ Hall Hs).
Qed.

(** ** Timer and open question *)

Lemma nextQuestion_timer_iff s t :
  let s' := fst (fst (nextQuestion s t)) in
  (timer s' = None <-> currentQuestion s' = None)
  /\ (snd (fst (nextQuestion s t)) = ReplyOk <-> currentQuestion s' <> None).
Proof.
  unfold nextQuestion.
  destruct (currentQuestion
              (withQuestionIdx (questionIdx (withTimer None s) + 1)
                               (withTimer None s))) as [q|] eqn:Hq;
    cbn [fst snd endSession];
    match goal with
    | |- context [currentQuestion ?x] =>
        replace (currentQuestion x) with
          (currentQuestion
             (withQuestionIdx (questionIdx (withTimer None s) + 1)
                              (withTimer None s))) by reflexivity
    end;
    rewrite Hq; cbn [timer withTimer]; repeat split; intros; congruence.
Qed.

(** X10: in every reachable world a session has a pending auto-advance
    timer exactly when it has a current question: the timer is armed with
    each question and there is none before the start and after the end. *)
Theorem timer_iff_open_question (w : World) (pin : string) (s : Session) :
  reachable w ->
  JsMap.get pin (SESSIONS w) = Some s ->
  (timer s = None <-> currentQuestion s = None).
Proof.
  intros Hr Hs.
  apply (reachable_sessions_ind
           (fun s => timer s = None <-> currentQuestion s = None))
    with (w := w) (pin := pin); auto.
  - intros. simpl. tauto.
  - intros s0 t _. apply nextQuestion_timer_iff.
  - intros s0 qs t _. apply nextQuestion_timer_iff.
Qed.

Lemma timer_iff_open_question_witness :
  exists s,
    JsMap.get "123456" (SESSIONS (worldAfter overrunTrace)) = Some s
    /\ timer s = None
    /\ (timer s = None <-> currentQuestion s = None).
Proof.
  eexists. split; [evaluated|]. split; [evaluated|].
  apply (timer_iff_open_question (worldAfter overrunTrace) "123456").
  - apply worldAfter_reachable.
  - evaluated.
Defined.

(** ** Advancing *)

Lemma currentQuestion_past_end s :
  questionIdx s + 1 = Z.of_nat (List.length (questions s)) ->
  currentQuestion (withQuestionIdx (questionIdx (withTimer None s) + 1)
                                   (withTimer None s)) = None.
Proof.
  intros Hlast. unfold currentQuestion. cbn [questionIdx questions
    withQuestionIdx withTimer].
  destruct (questionIdx s + 1 <? 0); [reflexivity|].
  apply nth_error_None. lia.
Qed.

(** X11: when the timer of the last question fires, the session ends by
    itself: the only output is the session-end broadcast with reason done
    to the session's room, the cursor is one past the last question, no
    timer is left and the players are as they were. *)
Theorem timer_ends_after_last_question
    (w : World) (pin : string) (s : Session) (tm : Timer) (now : Z) :
  reachable w ->
  JsMap.get pin (SESSIONS w) = Some s ->
  timer s = Some tm ->
  timerDue tm now = true ->
  questionIdx s + 1 = Z.of_nat (List.length (questions s)) ->
  exists s',
    on_timer (SESSIONS w) pin now
      = Some (JsMap.set pin s' (SESSIONS w),
              [Emit pin (MsgSessionEnd "done")])
    /\ questionIdx s' = Z.of_nat (List.length (questions s'))
    /\ currentQuestion s' = None
    /\ timer s' = None
    /\ players s' = players s
    /\ questions s' = questions s.
Proof.
  intros Hr Hs Htm Hdue Hlast.
  pose proof (ok_pin _ _ _ (reachable_sessionOk w pin s Hr Hs)) as Hpin.
  unfold on_timer. rewrite Hs, Htm, Hdue. unfold nextQuestion.
  rewrite (currentQuestion_past_end s Hlast). cbn [endSession].
  eexists. split; [cbn [s_pin withTimer withQuestionIdx]; rewrite Hpin;
                   reflexivity|].
  cbn [questionIdx questions players timer withTimer withQuestionIdx].
  split; [assumption|]. split; [|repeat split].
  apply (currentQuestion_past_end s Hlast).
Qed.

Lemma timer_ends_after_last_question_witness :
  exists s',
    on_timer (SESSIONS (worldAfter (scenarioA "host" "p1" 23456 1000 2000)))
             "123456" 17050
      = Some (JsMap.set "123456" s'
                (SESSIONS (worldAfter (scenarioA "host" "p1" 23456 1000 2000))),
              [Emit "123456" (MsgSessionEnd "done")])
    /\ questionIdx s' = Z.of_nat (List.length (questions s'))
    /\ currentQuestion s' = None
    /\ timer s' = None.
Proof.
  destruct (timer_ends_after_last_question
              (worldAfter (scenarioA "host" "p1" 23456 1000 2000))
              "123456" _ _ 17050
              (worldAfter_reachable _)
              ltac:(evaluated) ltac:(evaluated) ltac:(evaluated)
              ltac:(evaluated))
    as (s' & H1 & H2 & H3 & H4 & _).
  exists s'. repeat split; assumption.
Defined.

(** X12: an advance-question by the host when no question is left replies
    the failure no-more and yet changes the session: the cursor moves one
    further, the timer is cleared, and session-end with reason done is
    broadcast once more; the deadline of the last question stays. *)
Theorem advance_past_end
    (reg : Registry) (socket pin : string) (s : Session) (now : Z) :
  JsMap.get pin reg = Some s ->
  hostSocketId s = socket ->
  Z.of_nat (List.length (questions s)) <= questionIdx s + 1 ->
  exists s',
    on_question_next reg socket pin now
      = (JsMap.set pin s' reg,
         [Emit (s_pin s) (MsgSessionEnd "done"); Cb (ReplyFail "no-more")])
    /\ questionIdx s' = questionIdx s + 1
    /\ timer s' = None
    /\ deadline s' = deadline s
    /\ currentQuestion s' = None.
Proof.
  intros Hs Hhost Hend.
  assert (Hq : currentQuestion
                 (withQuestionIdx (questionIdx (withTimer None s) + 1)
                                  (withTimer None s)) = None).
  { unfold currentQuestion.
    cbn [questionIdx questions withQuestionIdx withTimer].
    destruct (questionIdx s + 1 <? 0); [reflexivity|].
    apply nth_error_None. lia. }
  unfold on_question_next. rewrite Hs, Hhost, String.eqb_refl. cbn [negb].
  unfold nextQuestion. rewrite Hq. cbn [endSession app].
  eexists. split; [reflexivity|].
  cbn [questionIdx timer deadline withTimer withQuestionIdx].
  repeat split. exact Hq.
Qed.

Lemma advance_past_end_witness :
  exists s s',
    JsMap.get "123456" (SESSIONS (worldAfter overrunTrace)) = Some s
    /\ questionIdx s = 2
    /\ on_question_next (SESSIONS (worldAfter overrunTrace)) "host" "123456"
                        5000
       = (JsMap.set "123456" s' (SESSIONS (worldAfter overrunTrace)),
          [Emit (s_pin s) (MsgSessionEnd "done"); Cb (ReplyFail "no-more")])
    /\ questionIdx s' = questionIdx s + 1.
Proof.
  eexists.
  match goal with
  | |- exists s', JsMap.get _ ?reg = Some ?s /\ _ =>
      assert (Hs : JsMap.get "123456" reg = Some s) by evaluated;
      destruct (advance_past_end reg "host" "123456" s 5000 Hs
                  ltac:(evaluated) ltac:(vm_compute; discriminate))
        as (s' & H1 & H2 & _)
  end.
  exists s'. split; [exact Hs|]. split; [evaluated|].
  split; assumption.
Defined.

(** ** Disconnecting *)

Lemma disconnect_unknown reg socket :
  Forall (fun e => hostSocketId (snd e) <> socket
                   /\ JsMap.get socket (players (snd e)) = None) reg ->
  on_disconnect reg socket = (reg, []).
Proof.
  induction 1 as [|[pin s] rest [Hhost Hget] _ IH]; simpl; [reflexivity|].
  rewrite IH. simpl in Hhost, Hget.
  destruct (String.eqb_spec (hostSocketId s) socket); [contradiction|].
  unfold JsMap.has. now rewrite Hget.
Qed.

Lemma disconnect_gone reg socket :
  Forall (fun e => hostSocketId (snd e) <> socket
                   /\ JsMap.get socket (players (snd e)) = None)
         (fst (on_disconnect reg socket)).
Proof.
  induction reg as [|[pin s] rest IH]; simpl; [constructor|].
  destruct (on_disconnect rest socket) as [rest' outs]. simpl in IH.
  destruct (String.eqb_spec (hostSocketId s) socket); simpl; [assumption|].
  destruct (JsMap.has socket (players s)) eqn:Hhas; simpl.
  - constructor; [|assumption]. simpl. split; [assumption|].
    apply get_delete_same.
  - constructor; [|assumption]. simpl. split; [assumption|].
    unfold JsMap.has in Hhas. now destruct (JsMap.get socket (players s)).
Qed.

(** X13: after a connection has disconnected it is the host of no
    registered session and a participant of none; handling the disconnect a
    second time changes nothing and broadcasts nothing. *)
Theorem disconnect_removes_connection (reg : Registry) (socket : string) :
  let reg' := fst (on_disconnect reg socket) in
  (forall pin s, JsMap.get pin reg' = Some s ->
     hostSocketId s <> socket /\ JsMap.get socket (players s) = None)
  /\ on_disconnect reg' socket = (reg', []).
Proof.
  simpl. pose proof (disconnect_gone reg socket) as Hgone. split.
  - intros pin s Hs.
    apply (Forall_get _ _ _ _ Hgone Hs).
  - now apply disconnect_unknown.
Qed.

(** X14: the disconnect of a connection that hosts no session and has
    joined none leaves the registry as it is and broadcasts nothing. *)
Theorem disconnect_of_stranger (reg : Registry) (socket : string) :
  (forall pin s, In (pin, s) reg ->
     hostSocketId s <> socket /\ JsMap.get socket (players s) = None) ->
  on_disconnect reg socket = (reg, []).
Proof.
  intros H. apply disconnect_unknown. apply Forall_forall.
  intros [pin s] Hin. now apply (H pin s).
Qed.

Lemma disconnect_of_stranger_witness :
  on_disconnect (SESSIONS (worldAfter streakTrace)) "nobody"
    = (SESSIONS (worldAfter streakTrace), []).
Proof.
  assert (Hreg : exists s0,
             SESSIONS (worldAfter streakTrace) = [("123456", s0)]
             /\ hostSocketId s0 = "host"
             /\ JsMap.get "nobody" (players s0) = None).
  { eexists. split; [evaluated|]. split; evaluated. }
  destruct Hreg as (s0 & Hreg & Hhost & Hget). rewrite Hreg.
  apply (disconnect_of_stranger [("123456", s0)] "nobody").
  intros pin s [Hin|[]]. injection Hin as <- <-.
  split; [rewrite Hhost; discriminate | exact Hget].
Defined.

(** ** What an answer changes *)

(** X15: a submit-answer, whatever its outcome, leaves every other session
    as it is; in the session addressed, the host, the questions, the
    cursor, the deadline and the timer stay, the set and order of the
    participants stay, and no participant but the sender is touched. *)
Theorem answer_changes_only_sender
    (reg : Registry) (socket pin a : string) (now : Z) (s : Session) :
  JsMap.get pin reg = Some s ->
  let reg' := fst (on_answer reg socket pin a now) in
  (forall pin', pin <> pin' -> JsMap.get pin' reg' = JsMap.get pin' reg)
  /\ JsMap.keys reg' = JsMap.keys reg
  /\ exists s',
       JsMap.get pin reg' = Some s'
       /\ hostSocketId s' = hostSocketId s
       /\ questions s' = questions s
       /\ questionIdx s' = questionIdx s
       /\ deadline s' = deadline s
       /\ timer s' = timer s
       /\ JsMap.keys (players s') = JsMap.keys (players s)
       /\ (forall other, socket <> other ->
             JsMap.get other (players s') = JsMap.get other (players s)).
Proof.
  intros Hs. unfold on_answer. rewrite Hs.
  assert (Hsame : (forall pin', pin <> pin' ->
                     JsMap.get pin' reg = JsMap.get pin' reg)
                  /\ JsMap.keys reg = JsMap.keys reg
                  /\ exists s',
                       JsMap.get pin reg = Some s'
                       /\ hostSocketId s' = hostSocketId s
                       /\ questions s' = questions s
                       /\ questionIdx s' = questionIdx s
                       /\ deadline s' = deadline s
                       /\ timer s' = timer s
                       /\ JsMap.keys (players s') = JsMap.keys (players s)
                       /\ (forall other, socket <> other ->
                             JsMap.get other (players s')
                             = JsMap.get other (players s))).
  { split; [reflexivity|]. split; [reflexivity|]. exists s.
    repeat split; auto. }
  destruct (JsMap.get socket (players s)) as [p|] eqn:Hp; [|exact Hsame].
  destruct (scoreAnswer s p a now) as [[r|c g pen cr st] p'];
    [exact Hsame|]. cbn [fst].
  assert (Hin : forall {V} k (v : V) m,
             JsMap.get k m = Some v -> In k (JsMap.keys m)).
  { intros V k v m H. apply get_In in H.
    change k with (fst (k, v)). now apply in_map. }
  split; [intros pin' Hne; now apply get_set_other|].
  split; [apply keys_set_in; eapply Hin; eassumption|].
  eexists. split; [apply get_set_same|].
  cbn [hostSocketId questions questionIdx deadline timer players withPlayers].
  do 5 (split; [reflexivity|]).
  split; [apply keys_set_in; eapply Hin; eassumption|].
  intros other Hne. now apply get_set_other.
Qed.

Lemma answer_changes_only_sender_witness :
  exists s s',
    JsMap.get "123456" (SESSIONS (worldAfter streakTrace)) = Some s
    /\ JsMap.get "123456"
         (fst (on_answer (SESSIONS (worldAfter streakTrace)) "p1" "123456"
                         "Bye" 20000)) = Some s'
    /\ questionIdx s' = questionIdx s
    /\ timer s' = timer s.
Proof.
  eexists.
  match goal with
  | |- exists s', JsMap.get _ ?reg = Some ?s /\ _ =>
      assert (Hs : JsMap.get "123456" reg = Some s) by evaluated;
      destruct (answer_changes_only_sender reg "p1" "123456" "Bye" 20000 s Hs)
        as (_ & _ & s' & H1 & _ & _ & H2 & _ & H3 & _)
  end.
  exists s'. repeat split; assumption.
Defined.

(** ** What an accepted answer is worth *)

Lemma timeBonusAt_at_deadline (dl duration : Z) :
  timeBonusAt dl duration dl = 0.
Proof. unfold timeBonusAt. rewrite Z.sub_diag. reflexivity. Qed.

(** X16: in a reachable world, an answer accepted at a time not before the
    clock is worth, when correct, the base 1000, a time bonus between 0 and
    500 and 100 per step of the new streak, and it raises the score by
    that; when wrong it gains nothing and lowers the score by at most
    100 per step of the streak lost. *)
Theorem accepted_answer_gain
    (w : World) (pin socket a : string) (now : Z)
    (s : Session) (p p' : Player)
    (isCorrect : bool) (gained : Z) (penalty : option Z) (right : string)
    (streak' : Z) :
  reachable w ->
  clock w <= now ->
  JsMap.get pin (SESSIONS w) = Some s ->
  JsMap.get socket (players s) = Some p ->
  scoreAnswer s p a now = (ScoreOk isCorrect gained penalty right streak', p') ->
  (isCorrect = true ->
     1000 + 100 * (streak p + 1) <= gained <= 1500 + 100 * (streak p + 1)
     /\ score p' = score p + gained
     /\ streak p' = streak p + 1
     /\ streak' = streak p + 1)
  /\ (isCorrect = false ->
        gained = 0
        /\ penalty = Some (100 * streak p)
        /\ score p - 100 * streak p <= score p' <= score p
        /\ streak p' = 0
        /\ streak' = 0).
Proof.
  intros Hr Hclk Hs Hp Hsc.
  pose proof (reachable_sessionOk w pin s Hr Hs) as Hok.
  destruct (Forall_get _ _ _ _ (ok_players _ _ _ Hok) Hp) as [Hscore Hstreak].
  simpl in Hscore, Hstreak.
  unfold scoreAnswer in Hsc.
  destruct (currentQuestion s) as [q|] eqn:Hq; [|discriminate].
  destruct (answeredThis p q); [discriminate|].
  destruct (pastDeadline s now) eqn:Hd; [discriminate|].
  destruct (ok_deadline _ _ _ Hok q Hq) as (t0 & Ht0 & Hdl).
  assert (Hne : durationMs q <> 0).
  { pose proof (ok_durations _ _ _ Hok) as Hall.
    rewrite Forall_forall in Hall. apply Hall.
    now apply currentQuestion_In. }
  assert (Hnow : now <= t0 + durationMs q).
  { unfold pastDeadline in Hd. rewrite Hdl in Hd.
    destruct (t0 + durationMs q) eqn:E; simpl in Hd;
      try discriminate;
      rewrite Z.gtb_ltb in Hd; apply Z.ltb_ge in Hd; lia. }
  assert (Hpos : 0 < durationMs q) by lia.
  rewrite Hdl in Hsc. unfold orElse in Hsc.
  assert (Hb : 0 <= timeBonusAt (t0 + durationMs q) (durationMs q) now <= 500).
  { split; [now apply timeBonusAt_nonneg|].
    apply (timeBonusAt_le_max t0 (durationMs q) now); lia. }
  cbv zeta in Hsc.
  set (tb := timeBonusAt (t0 + durationMs q) (durationMs q) now) in *.
  set (g := BASE_SCORE + tb + (streak p + 1) * STREAK_STEP) in *.
  set (pen := streak p * STREAK_STEP) in *.
  set (st := streak p + 1) in *.
  assert (Eg : g = 1000 + tb + 100 * (streak p + 1))
    by (unfold g, BASE_SCORE, STREAK_STEP; lia).
  assert (Epen : pen = 100 * streak p) by (unfold pen, STREAK_STEP; lia).
  assert (Est : st = streak p + 1) by reflexivity.
  clearbody g pen st.
  destruct (String.eqb a (answer q));
    apply pair_equal_spec in Hsc as [Hres Hpl];
    injection Hres as HisC Hgained Hpen Hright Hst;
    rewrite <- Hpl; cbn [score streak];
    (split; intros Hc; [|congruence]) || (split; intros Hc; [congruence|]).
  - repeat split; lia.
  - split; [lia|]. split; [rewrite <- Hpen; f_equal; lia|].
    repeat split; lia.
Qed.

Lemma accepted_answer_gain_witness :
  exists s p p' gained penalty,
    JsMap.get "123456" (SESSIONS (worldAfter streakTrace)) = Some s
    /\ JsMap.get "p1" (players s) = Some p
    /\ scoreAnswer s p "Hello" 20000
       = (ScoreOk true gained penalty "Hello" 3, p')
    /\ 1000 + 100 * (streak p + 1) <= gained <= 1500 + 100 * (streak p + 1)
    /\ score p' = score p + gained.
Proof.
  eexists; eexists; eexists; eexists; eexists.
  split; [evaluated|]. split; [evaluated|]. split; [evaluated|].
  match goal with
  | |- _ <= ?g <= _ /\ score ?p' = score ?p + _ =>
      destruct (accepted_answer_gain
                  (worldAfter streakTrace) "123456" "p1" "Hello" 20000
                  _ p p' true g None "Hello" 3
                  (worldAfter_reachable streakTrace)
                  ltac:(vm_compute; discriminate)
                  ltac:(evaluated) ltac:(evaluated) ltac:(evaluated))
        as [H _]
  end.
  destruct (H eq_refl) as (H1 & H2 & _). split; assumption.
Defined.

(** X17: the deadline is inclusive: in a reachable world, a participant who
    has not answered the open question of positive duration and answers it
    correctly exactly at its deadline is accepted with no time bonus, that
    is with gained 1000 plus 100 per step of the new streak; one
    millisecond later, or any time later, the reply is too-late. *)
Theorem deadline_is_inclusive
    (w : World) (pin socket : string) (s : Session) (p : Player)
    (q : Question) (dl : Z) :
  reachable w ->
  JsMap.get pin (SESSIONS w) = Some s ->
  JsMap.get socket (players s) = Some p ->
  currentQuestion s = Some q ->
  answeredThis p q = false ->
  deadline s = Some dl ->
  0 < durationMs q ->
  (exists reg' board,
     on_answer (SESSIONS w) socket pin (answer q) dl
       = (reg', [Cb (ReplyAnswer true (1000 + 100 * (streak p + 1)) 0
                                 (answer q) (streak p + 1)); board]))
  /\ (forall a now, dl < now ->
        on_answer (SESSIONS w) socket pin a now
          = (SESSIONS w, [Cb (ReplyFail "too-late")])).
Proof.
  intros Hr Hs Hp Hq Ha Hdl Hpos.
  pose proof (reachable_sessionOk w pin s Hr Hs) as Hok.
  destruct (ok_deadline _ _ _ Hok q Hq) as (t0 & Ht0 & Hdl').
  assert (dl = t0 + durationMs q) by congruence. subst dl.
  split.
  - assert (Hd : pastDeadline s (t0 + durationMs q) = false).
    { unfold pastDeadline. rewrite Hdl.
      destruct (t0 + durationMs q) eqn:E; simpl; lia. }
    unfold on_answer. rewrite Hs, Hp.
    rewrite (scoreAnswer_correct s p (t0 + durationMs q) q Hq Ha Hd).
    rewrite Hdl. cbn [orElse truthyNumber].
    rewrite timeBonusAt_at_deadline. unfold BASE_SCORE, STREAK_STEP.
    replace (1000 + 0 + (streak p + 1) * 100)
      with (1000 + 100 * (streak p + 1)) by lia.
    eexists; eexists. reflexivity.
  - intros a now Hlate.
    apply (on_answer_fails (SESSIONS w) socket pin a now s p); auto.
    unfold firstFailingCheck. rewrite Hq, Ha.
    unfold pastDeadline. rewrite Hdl.
    destruct (t0 + durationMs q) eqn:E; simpl; try reflexivity.
    + assert (H : (now >? Z.pos p0) = true) by lia. now rewrite H.
    + lia.
Qed.

Lemma deadline_is_inclusive_witness :
  exists s p q,
    JsMap.get "123456" (SESSIONS (worldAfter streakTrace)) = Some s
    /\ JsMap.get "p1" (players s) = Some p
    /\ currentQuestion s = Some q
    /\ (exists reg' board,
          on_answer (SESSIONS (worldAfter streakTrace)) "p1" "123456"
                    (answer q) 29000
            = (reg', [Cb (ReplyAnswer true (1000 + 100 * (streak p + 1)) 0
                                      (answer q) (streak p + 1)); board]))
    /\ (forall a now, 29000 < now ->
          on_answer (SESSIONS (worldAfter streakTrace)) "p1" "123456" a now
            = (SESSIONS (worldAfter streakTrace),
               [Cb (ReplyFail "too-late")])).
Proof.
  eexists; eexists; eexists.
  split; [evaluated|]. split; [evaluated|]. split; [evaluated|].
  eapply (deadline_is_inclusive (worldAfter streakTrace) "123456" "p1").
  - apply worldAfter_reachable.
  - evaluated.
  - evaluated.
  - evaluated.
  - evaluated.
  - evaluated.
  - vm_compute. reflexivity.
Defined.

(** ** Replies *)

Lemma nextQuestion_no_reply s t : replyCount (snd (nextQuestion s t)) = 0%nat.
Proof.
  unfold nextQuestion. now destruct (currentQuestion _).
Qed.

Lemma disconnect_no_reply reg socket :
  replyCount (snd (on_disconnect reg socket)) = 0%nat.
Proof.
  induction reg as [|[pin s] rest IH]; simpl; [reflexivity|].
  destruct (on_disconnect rest socket) as [rest' outs]. simpl in IH.
  destruct (String.eqb (hostSocketId s) socket); simpl; [assumption|].
  destruct (JsMap.has socket (players s)); simpl; assumption.
Qed.

Lemma replyCount_app o1 o2 :
  replyCount (o1 ++ o2) = (replyCount o1 + replyCount o2)%nat.
Proof.
  induction o1 as [|[r|room m] rest IH]; simpl; auto.
Qed.

Lemma handle_replyCount
    (reg reg' : Registry) (now : Z) (e : Event) (outs : list Output) :
  handle reg now e = Some (reg', outs) ->
  replyCount outs = if isRequest e then 1%nat else 0%nat.
Proof.
  intros Hh.
  destruct e as [socket draws uuid | socket pin qs uuid | socket pin
                | socket pin nm uuid | socket pin a | socket | pin];
    simpl in Hh; cbn [isRequest].
  - unfold on_session_create in Hh.
    destruct (createSession reg socket draws uuid) as [[s r]|];
      [|discriminate].
    now injection Hh as _ <-.
  - injection Hh as Hh. unfold on_session_start in Hh.
    destruct (JsMap.get pin reg) as [s|]; [|now injection Hh as _ <-].
    destruct (negb (String.eqb (hostSocketId s) socket));
      [now injection Hh as _ <-|].
    match type of Hh with
    | context [nextQuestion ?s2 now] =>
        pose proof (nextQuestion_no_reply s2 now) as Hn;
        destruct (nextQuestion s2 now) as [[s3 r] o]
    end.
    injection Hh as _ <-. simpl in *. now rewrite Hn.
  - injection Hh as Hh. unfold on_question_next in Hh.
    destruct (JsMap.get pin reg) as [s|]; [|now injection Hh as _ <-].
    destruct (negb (String.eqb (hostSocketId s) socket));
      [now injection Hh as _ <-|].
    pose proof (nextQuestion_no_reply s now) as Hn.
    destruct (nextQuestion s now) as [[s3 r] o].
    injection Hh as _ <-. simpl in Hn. rewrite replyCount_app, Hn.
    reflexivity.
  - injection Hh as Hh. unfold on_join in Hh.
    destruct (JsMap.get pin reg) as [s|]; now injection Hh as _ <-.
  - injection Hh as Hh. unfold on_answer in Hh.
    destruct (JsMap.get pin reg) as [s|]; [|now injection Hh as _ <-].
    destruct (JsMap.get socket (players s)) as [p|];
      [|now injection Hh as _ <-].
    destruct (scoreAnswer s p a now) as [[r|c g pen cr st] p'];
      now injection Hh as _ <-.
  - injection Hh as Hh.
    pose proof (disconnect_no_reply reg socket) as Hn. now rewrite Hh in Hn.
  - unfold on_timer in Hh.
    destruct (JsMap.get pin reg) as [s|]; [|discriminate].
    destruct (timer s) as [t|]; [|discriminate].
    destruct (timerDue t now); [|discriminate].
    pose proof (nextQuestion_no_reply s now) as Hn.
    destruct (nextQuestion s now) as [[s3 r] o].
    now injection Hh as _ <-.
Qed.

Lemma replyCount_broadcasts (outs : list Output) :
  replyCount (filter (fun o => negb (isReply o)) outs) = 0%nat.
Proof.
  induction outs as [|[r|room m] rest IH]; simpl; auto.
Qed.

Lemma broadcasts_idempotent (outs : list Output) :
  filter (fun o => negb (isReply o))
         (filter (fun o => negb (isReply o)) outs)
  = filter (fun o => negb (isReply o)) outs.
Proof.
  induction outs as [|[r|room m] rest IH]; simpl; auto. now rewrite IH.
Qed.

(** X18: of a handled request (create, start, advance, join, answer) that
    carries its payload object, every path through the handler reaches
    exactly one [cb?.(...)]: with a callback exactly one reply is sent,
    whatever the outcome, and without one no reply is sent; the broadcasts
    are the same in both cases.  A disconnect and a timer produce
    broadcasts only. *)
Theorem one_reply_per_request
    (reg reg' : Registry) (now : Z) (e : Event) (outs : list Output)
    (hasCallback : bool) :
  handle reg now e = Some (reg', outs) ->
  replyCount (sent hasCallback outs)
    = (if hasCallback && isRequest e then 1%nat else 0%nat)
  /\ filter (fun o => negb (isReply o)) (sent hasCallback outs)
     = filter (fun o => negb (isReply o)) outs.
Proof.
  intros Hh. pose proof (handle_replyCount reg reg' now e outs Hh) as Hn.
  destruct hasCallback; cbn [sent andb].
  - split; [exact Hn | reflexivity].
  - split; [apply replyCount_broadcasts | apply broadcasts_idempotent].
Qed.

Lemma one_reply_per_request_witness :
  exists reg' outs,
    handle (SESSIONS (worldAfter streakTrace)) 20000
           (submit_answer "p1" "123456" "Bye") = Some (reg', outs)
    /\ replyCount (sent true outs) = 1%nat
    /\ replyCount (sent false outs) = 0%nat
    /\ List.length (sent false outs) = 1%nat.
Proof.
  eexists; eexists. split; [evaluated|].
  split; [|split; [|evaluated]].
  - refine (proj1 (one_reply_per_request
                     (SESSIONS (worldAfter streakTrace)) _ 20000
                     (submit_answer "p1" "123456" "Bye") _ true _)).
    evaluated.
  - refine (proj1 (one_reply_per_request
                     (SESSIONS (worldAfter streakTrace)) _ 20000
                     (submit_answer "p1" "123456" "Bye") _ false _)).
    evaluated.
Defined.

Lemma nextQuestion_only_emits s t r :
  ~ In (Cb r) (snd (nextQuestion s t)).
Proof.
  unfold nextQuestion. destruct (currentQuestion _); simpl;
    intros [H|[]]; discriminate.
Qed.

Lemma nextQuestion_reply s t :
  snd (fst (nextQuestion s t)) = ReplyOk
  \/ snd (fst (nextQuestion s t)) = ReplyFail "no-more".
Proof.
  unfold nextQuestion. destruct (currentQuestion _); simpl; auto.
Qed.

(** X19: a request that is answered with a failure other than no-more has
    no effect: the registry is as before and nothing is broadcast. *)
Theorem failure_has_no_effect
    (reg reg' : Registry) (now : Z) (e : Event) (outs : list Output)
    (reason : string) :
  handle reg now e = Some (reg', outs) ->
  In (Cb (ReplyFail reason)) outs ->
  reason <> "no-more" ->
  reg' = reg /\ outs = [Cb (ReplyFail reason)].
Proof.
  intros Hh Hin Hne.
  destruct e as [socket draws uuid | socket pin qs uuid | socket pin
                | socket pin nm uuid | socket pin a | socket | pin];
    simpl in Hh.
  - unfold on_session_create in Hh.
    destruct (createSession reg socket draws uuid) as [[s r]|];
      [|discriminate].
    injection Hh as _ <-. destruct Hin as [H|[]]. discriminate.
  - injection Hh as Hh. unfold on_session_start in Hh.
    destruct (JsMap.get pin reg) as [s|].
    + destruct (negb (String.eqb (hostSocketId s) socket)).
      * injection Hh as <- <-. destruct Hin as [[= <-]|[]]. now split.
      * match type of Hh with
        | context [nextQuestion ?s2 now] =>
            pose proof (nextQuestion_only_emits s2 now (ReplyFail reason))
              as Hn;
            destruct (nextQuestion s2 now) as [[s3 r] o]
        end.
        injection Hh as _ <-. destruct Hin as [H|H]; [discriminate|].
        now apply Hn in H.
    + injection Hh as <- <-. destruct Hin as [[= <-]|[]]. now split.
  - injection Hh as Hh. unfold on_question_next in Hh.
    destruct (JsMap.get pin reg) as [s|].
    + destruct (negb (String.eqb (hostSocketId s) socket)).
      * injection Hh as <- <-. destruct Hin as [[= <-]|[]]. now split.
      * pose proof (nextQuestion_only_emits s now (ReplyFail reason)) as Hn.
        pose proof (nextQuestion_reply s now) as Hr.
        destruct (nextQuestion s now) as [[s3 r] o].
        injection Hh as _ <-. simpl in Hn, Hr.
        apply in_app_or in Hin as [H|[H|[]]]; [now apply Hn in H|].
        destruct Hr as [-> | ->]; [discriminate|].
        injection H as <-. contradiction.
    + injection Hh as <- <-. destruct Hin as [[= <-]|[]]. now split.
  - injection Hh as Hh. unfold on_join in Hh.
    destruct (JsMap.get pin reg) as [s|].
    + simpl in Hh. injection Hh as _ <-.
      destruct Hin as [H|[H|[H|[]]]]; discriminate.
    + injection Hh as <- <-. destruct Hin as [[= <-]|[]]. now split.
  - injection Hh as Hh. unfold on_answer in Hh.
    destruct (JsMap.get pin reg) as [s|].
    + destruct (JsMap.get socket (players s)) as [p|].
      * destruct (scoreAnswer s p a now) as [[r|c g pen cr st] p'].
        -- injection Hh as <- <-. destruct Hin as [[= <-]|[]]. now split.
        -- injection Hh as _ <-. destruct Hin as [H|[H|[]]]; discriminate.
      * injection Hh as <- <-. destruct Hin as [[= <-]|[]]. now split.
    + injection Hh as <- <-. destruct Hin as [[= <-]|[]]. now split.
  - injection Hh as Hh.
    pose proof (disconnect_no_reply reg socket) as Hn. rewrite Hh in Hn.
    simpl in Hn. exfalso. clear Hh.
    induction outs as [|[r|room m] rest IH]; simpl in *;
      [contradiction | discriminate |].
    destruct Hin as [H|H]; [discriminate | auto].
  - unfold on_timer in Hh.
    destruct (JsMap.get pin reg) as [s|]; [|discriminate].
    destruct (timer s) as [t|]; [|discriminate].
    destruct (timerDue t now); [|discriminate].
    pose proof (nextQuestion_only_emits s now (ReplyFail reason)) as Hn.
    destruct (nextQuestion s now) as [[s3 r] o].
    injection Hh as _ <-. now apply Hn in Hin.
Qed.

Lemma failure_has_no_effect_witness :
  exists reg' outs,
    handle (SESSIONS (worldAfter streakTrace)) 30000
           (submit_answer "p1" "123456" "Hello") = Some (reg', outs)
    /\ reg' = SESSIONS (worldAfter streakTrace)
    /\ outs = [Cb (ReplyFail "too-late")].
Proof.
  eexists; eexists. split; [evaluated|].
  eapply (failure_has_no_effect
           (SESSIONS (worldAfter streakTrace)) _ 30000
           (submit_answer "p1" "123456" "Hello") _ "too-late").
  - evaluated.
  - vm_compute. left. reflexivity.
  - discriminate.
Defined.

(** ** Starting *)

(** X20: a start by the host replies ok first and then advances once: the
    question list is replaced by the normalized questions, the cursor is 0
    whatever it was before, and the players with their scores, streaks and
    last answers are kept.  With no questions (absent or empty list) the
    session ends at once, with session-end done as the only broadcast and
    no timer; otherwise the first question is open with the deadline
    [now + duration]. *)
Theorem start_resets_cursor_keeps_players
    (reg : Registry) (socket pin : string)
    (qs : option (list RawQuestion)) (uuid : nat -> string) (now : Z)
    (s : Session) :
  JsMap.get pin reg = Some s ->
  hostSocketId s = socket ->
  exists s' outs,
    on_session_start reg socket pin qs uuid now
      = (JsMap.set pin s' reg, Cb ReplyOk :: outs)
    /\ questions s' = normalizeQuestions (orElse qs []) uuid 0
    /\ questionIdx s' = 0
    /\ players s' = players s
    /\ hostSocketId s' = hostSocketId s
    /\ (orElse qs [] = [] ->
          outs = [Emit (s_pin s) (MsgSessionEnd "done")]
          /\ timer s' = None
          /\ currentQuestion s' = None)
    /\ (forall q, hd_error (questions s') = Some q ->
          currentQuestion s' = Some q
          /\ deadline s' = Some (now + durationMs q)
          /\ timer s'
             = Some {| armedAt := now; delayMs := durationMs q + 50 |}
          /\ outs = [Emit (s_pin s)
                       (MsgQuestion (q_id q) (prompt q) (options q)
                          (now + durationMs q) 0
                          (List.length (questions s')))]).
Proof.
  intros Hs Hhost. subst socket. unfold on_session_start.
  rewrite Hs, String.eqb_refl. cbn [negb].
  unfold nextQuestion.
  remember (normalizeQuestions (orElse qs []) uuid 0) as norm eqn:Hnorm.
  assert (Hcur : currentQuestion
            (withQuestionIdx
               (questionIdx
                  (withTimer None
                     (withQuestionIdx (-1) (withQuestions norm s))) + 1)
               (withTimer None (withQuestionIdx (-1) (withQuestions norm s))))
            = hd_error norm).
  { unfold currentQuestion. cbn. now destruct norm. }
  rewrite Hcur.
  destruct norm as [|q rest]; cbn [hd_error endSession].
  - eexists; eexists. split; [reflexivity|].
    cbn [questions questionIdx players hostSocketId timer s_pin
         withTimer withQuestionIdx withQuestions withDeadline].
    split; [reflexivity|]. split; [reflexivity|]. split; [reflexivity|].
    split; [reflexivity|]. split; [|discriminate].
    intros _. repeat split.
  - eexists; eexists. split; [reflexivity|].
    cbn [questions questionIdx players hostSocketId timer s_pin deadline
         withTimer withQuestionIdx withQuestions withDeadline hd_error].
    split; [reflexivity|]. split; [reflexivity|]. split; [reflexivity|].
    split; [reflexivity|]. split.
    + intros Hempty. rewrite Hempty in Hnorm. discriminate.
    + intros q0 [= <-]. repeat split.
Qed.

Lemma start_resets_cursor_keeps_players_witness :
  exists s s' outs,
    JsMap.get "123456" (SESSIONS (worldAfter streakTrace)) = Some s
    /\ questionIdx s = 2
    /\ on_session_start (SESSIONS (worldAfter streakTrace)) "host" "123456"
                        None (fun _ => "q") 30000
       = (JsMap.set "123456" s' (SESSIONS (worldAfter streakTrace)),
          Cb ReplyOk :: outs)
    /\ questionIdx s' = 0
    /\ players s' = players s.
Proof.
  eexists.
  match goal with
  | |- exists s' outs, JsMap.get _ ?reg = Some ?s /\ _ =>
      assert (Hs : JsMap.get "123456" reg = Some s) by evaluated;
      destruct (start_resets_cursor_keeps_players
                  reg "host" "123456" None (fun _ => "q") 30000 s Hs
                  ltac:(evaluated))
        as (s' & outs & H1 & _ & H2 & H3 & _)
  end.
  exists s', outs. split; [exact Hs|]. split; [evaluated|].
  repeat split; assumption.
Defined.

(** ** Joining *)

(** X21: a first join adds the connection as the last entry of the players,
    after all earlier participants, with a fresh record; nobody else is
    touched and the session's questions, cursor, deadline and timer stay. *)
Theorem first_join_appends
    (reg : Registry) (socket pin : string) (nm : option CodeUnits)
    (uuid : string) (s : Session) :
  JsMap.get pin reg = Some s ->
  JsMap.get socket (players s) = None ->
  exists s' fresh,
    on_join reg socket pin nm uuid
      = (JsMap.set pin s' reg,
         [Emit pin (MsgPlayerJoined uuid (name fresh));
          emitLeaderboard s';
          Cb (ReplyJoined uuid pin)])
    /\ players s' = players s ++ [(socket, fresh)]
    /\ p_id fresh = uuid /\ score fresh = 0 /\ streak fresh = 0
    /\ lastAnswer fresh = None
    /\ questions s' = questions s /\ questionIdx s' = questionIdx s
    /\ deadline s' = deadline s /\ timer s' = timer s.
Proof.
  intros Hs Hnone. unfold on_join, addPlayer. rewrite Hs.
  assert (Happ : forall (p : Player) m,
             JsMap.get socket m = None -> JsMap.set socket p m
                                          = m ++ [(socket, p)]).
  { intros p m. induction m as [|[k v] rest IH]; simpl; [reflexivity|].
    destruct (String.eqb k socket); [discriminate|].
    intros H. now rewrite IH. }
  eexists (withPlayers _ s), (mkPlayer _ _ _ _ _ _).
  split; [reflexivity|].
  cbn [players withPlayers p_id score streak lastAnswer questions
       questionIdx deadline timer].
  split; [now apply Happ|]. repeat split.
Qed.

Lemma first_join_appends_witness :
  exists s s' fresh,
    JsMap.get "123456" (SESSIONS (worldAfter streakTrace)) = Some s
    /\ JsMap.get "p2" (players s) = None
    /\ players s' = players s ++ [("p2", fresh)]
    /\ score fresh = 0.
Proof.
  eexists.
  match goal with
  | |- exists s' fresh, JsMap.get _ ?reg = Some ?s /\ _ =>
      assert (Hs : JsMap.get "123456" reg = Some s) by evaluated;
      assert (Hn : JsMap.get "p2" (players s) = None) by evaluated;
      destruct (first_join_appends reg "p2" "123456" (Some (utf16 "P2")) "player-2"
                                   s Hs Hn)
        as (s' & fresh & _ & H1 & _ & H2 & _)
  end.
  exists s', fresh. repeat split; assumption.
Defined.

(** X22: joining resets the duplicate check: whoever joins a session whose
    question is open and not past its deadline, also a connection that had
    already answered that question, can answer it right after the join and
    is scored as a fresh participant with streak 1. *)
Theorem join_then_answer_is_scored
    (reg : Registry) (socket pin : string) (nm : option CodeUnits)
    (uuid : string) (now : Z) (s : Session) (q : Question) (dl : Z) :
  JsMap.get pin reg = Some s ->
  currentQuestion s = Some q ->
  deadline s = Some dl ->
  pastDeadline s now = false ->
  exists reg' board,
    on_answer (fst (on_join reg socket pin nm uuid)) socket pin (answer q) now
      = (reg',
         [Cb (ReplyAnswer true
                (1000 + timeBonusAt dl (durationMs q) now + 100) 0
                (answer q) 1); board]).
Proof.
  intros Hs Hq Hdl Hd. unfold on_join, addPlayer. rewrite Hs. cbn [fst].
  unfold on_answer. rewrite get_set_same.
  cbn [players withPlayers]. rewrite get_set_same.
  match goal with
  | |- context [scoreAnswer ?s1 ?p1 (answer q) now] =>
      rewrite (scoreAnswer_correct s1 p1 now q Hq eq_refl Hd)
  end.
  cbn [deadline withPlayers streak]. rewrite Hdl. cbn [orElse truthyNumber].
  unfold BASE_SCORE, STREAK_STEP.
  replace ((0 + 1) * 100) with 100 by reflexivity.
  eexists; eexists. reflexivity.
Qed.

Lemma join_then_answer_is_scored_witness :
  exists s p q,
    JsMap.get "123456"
      (SESSIONS (worldAfter (scenarioA "host" "p1" 23456 1000 2000))) = Some s
    /\ JsMap.get "p1" (players s) = Some p
    /\ currentQuestion s = Some q
    /\ answeredThis p q = true
    /\ exists reg' board,
         on_answer
           (fst (on_join
                   (SESSIONS
                      (worldAfter (scenarioA "host" "p1" 23456 1000 2000)))
                   "p1" "123456" (Some (utf16 "P1")) "player-2"))
           "p1" "123456" (answer q) 5000
         = (reg',
            [Cb (ReplyAnswer true
                   (1000 + timeBonusAt 17000 (durationMs q) 5000 + 100) 0
                   (answer q) 1); board]).
Proof.
  eexists; eexists; eexists.
  split; [evaluated|]. split; [evaluated|]. split; [evaluated|].
  split; [evaluated|].
  eapply (join_then_answer_is_scored
            (SESSIONS (worldAfter (scenarioA "host" "p1" 23456 1000 2000)))
            "p1" "123456" (Some (utf16 "P1")) "player-2" 5000).
  - evaluated.
  - evaluated.
  - evaluated.
  - evaluated.
Defined.

(** ** The earlier [server.js], continued *)

Lemma legacy_nextQuestion_arms_witness :
  exists s s' outs q tm,
    JsMap.get "123456" (SESSIONS (worldAfter streakTrace)) = Some s
    /\ ServerJs.nextQuestion (withQuestionIdx 0 s) 20000 = (s', ReplyOk, outs)
    /\ currentQuestion s' = Some q
    /\ deadline s' = Some (20000 + durationMs q)
    /\ timer s' = Some tm
    /\ delayMs tm = durationMs q
    /\ 0 < durationMs q
    /\ timerMayFire tm (20000 + durationMs q).
Proof.
  eexists; eexists; eexists; eexists; eexists.
  match goal with
  | |- JsMap.get _ ?reg = Some ?s /\ ?n = (?s', _, ?outs)
       /\ currentQuestion _ = Some ?q /\ _ /\ timer _ = Some ?tm /\ _ =>
      assert (Hs : JsMap.get "123456" reg = Some s) by evaluated;
      assert (Hn : n = (s', ReplyOk, outs)) by evaluated;
      assert (Hq0 : currentQuestion s' = Some q) by evaluated;
      assert (Htm0 : timer s' = Some tm) by evaluated;
      destruct (legacy_nextQuestion_arms _ _ _ _ Hn)
        as (q' & tm' & Hq & Hdl & Htm & Hdelay & Hfire)
  end.
  rewrite Hq0 in Hq. injection Hq as <-.
  rewrite Htm0 in Htm. injection Htm as <-.
  split; [exact Hs|]. split; [exact Hn|]. split; [exact Hq0|].
  split; [exact Hdl|]. split; [exact Htm0|]. split; [exact Hdelay|].
  assert (Hpos : 0 < 15000) by lia.
  split; [exact Hpos|]. apply Hfire. exact Hpos.
Defined.

(** X24: in the earlier server a wrong answer that passes the checks costs
    nothing: it gains 0, the score stays, and the answer is recorded so
    that the question cannot be answered again; a correct one gains the
    base 1000 and the time bonus, with no streak part. *)
Theorem legacy_scoring
    (s : Session) (p : ServerJs.Player) (a : string) (now : Z)
    (q : Question) :
  currentQuestion s = Some q ->
  ServerJs.answeredThis p q = false ->
  pastDeadline s now = false ->
  let bonus := timeBonusAt (orElse (deadline s) 0) (durationMs q) now in
  let res := ServerJs.scoreAnswer s p a now in
  (a = answer q ->
     fst res = ServerJs.ScoreOk true (1000 + bonus) (answer q)
     /\ ServerJs.score (snd res) = ServerJs.score p + (1000 + bonus))
  /\ (a <> answer q ->
        fst res = ServerJs.ScoreOk false 0 (answer q)
        /\ ServerJs.score (snd res) = ServerJs.score p)
  /\ ServerJs.answeredThis (snd res) q = true.
Proof.
  intros Hq Ha Hd. cbv zeta. unfold ServerJs.scoreAnswer.
  rewrite Hq, Ha, Hd.
  destruct (String.eqb_spec a (answer q)) as [->|Hne]; cbn [fst snd].
  - split; [intros _; split; reflexivity|].
    split; [intros H; now elim H|].
    unfold ServerJs.answeredThis. simpl. apply String.eqb_refl.
  - split; [intros H; contradiction|].
    split; [intros _; split; reflexivity|].
    unfold ServerJs.answeredThis. simpl. apply String.eqb_refl.
Qed.

Lemma legacy_scoring_witness :
  let s := {| s_id := "session-1"; s_pin := "123456"; hostSocketId := "host";
              players := [];
              questions := [mkQuestion "q1" "one" ["Hello"; "Bye"] "Hello"
                                       15000];
              questionIdx := 0; deadline := Some 17000; timer := None |} in
  let p := {| ServerJs.id := "player-1"; ServerJs.socketId := "p1";
              ServerJs.name := utf16 "P1"; ServerJs.score := 1500;
              ServerJs.lastAnswer := None |} in
  fst (ServerJs.scoreAnswer s p "Bye" 5000) = ServerJs.ScoreOk false 0 "Hello"
  /\ ServerJs.score (snd (ServerJs.scoreAnswer s p "Bye" 5000)) = 1500.
Proof.
  intros s p.
  destruct (legacy_scoring s p "Bye" 5000
              (mkQuestion "q1" "one" ["Hello"; "Bye"] "Hello" 15000)
              eq_refl eq_refl eq_refl) as (_ & H & _).
  apply H. discriminate.
Defined.

(** ** Six-digit codes *)

Lemma sixDigitsUpTo_sound (n : N) :
  fst (sixDigitsUpTo n) = Z.of_N n
  /\ (snd (sixDigitsUpTo n) = true ->
      forall r, 0 <= r < Z.of_N n -> String.length (genPin r) = 6%nat).
Proof.
  unfold sixDigitsUpTo.
  apply (N.iter_ind _ _ _
           (fun n st =>
              fst st = Z.of_N n
              /\ (snd st = true ->
                  forall r, 0 <= r < Z.of_N n ->
                            String.length (genPin r) = 6%nat))).
  - split; [reflexivity|]. intros _ r Hr. simpl in Hr. lia.
  - intros k [z ok] [Hz Hok]. simpl in Hz, Hok. subst z. simpl.
    split; [lia|]. intros Hand r Hr.
    apply andb_true_iff in Hand as [Hok' Hlen].
    destruct (Z.eq_dec r (Z.of_N k)) as [->|Hne].
    + now apply Nat.eqb_eq.
    + apply Hok; [assumption | lia].
Qed.

Lemma genPin_six_digits (r : Z) :
  0 <= r < 900000 -> String.length (genPin r) = 6%nat.
Proof.
  intros Hr.
  apply (proj2 (sixDigitsUpTo_sound 900000)); [|exact Hr].
  vm_compute. reflexivity.
Qed.

(** X25: when every draw is a value [floor (Math.random () * 900000)], that
    is at least 0 and below 900000, the code of a created session has
    exactly six characters. *)
Theorem createSession_six_digit_code
    (reg reg' : Registry) (host uuid : string) (draws : list Z)
    (s : Session) :
  Forall (fun r => 0 <= r < 900000) draws ->
  createSession reg host draws uuid = Some (s, reg') ->
  String.length (s_pin s) = 6%nat.
Proof.
  intros Hdraws Hc. unfold createSession in Hc.
  destruct (pickPin reg draws) as [pin|] eqn:Hpick; [|discriminate].
  injection Hc as <- _. simpl.
  destruct (pickPin_free reg draws pin Hpick) as [_ Hin].
  apply in_map_iff in Hin as (r & <- & Hr).
  apply genPin_six_digits. rewrite Forall_forall in Hdraws. now apply Hdraws.
Qed.

Lemma createSession_six_digit_code_witness :
  exists s reg',
    createSession [] "host" [899999] "session-1" = Some (s, reg')
    /\ s_pin s = "999999"
    /\ String.length (s_pin s) = 6%nat.
Proof.
  eexists; eexists. split; [evaluated|]. split; [evaluated|].
  eapply (createSession_six_digit_code [] _ "host" "session-1" [899999]).
  - constructor; [lia | constructor].
  - evaluated.
Defined.
